(** * AI-Recruitment-Agent: the screening / matching / interview pipeline

    A shallow embedding of [src/main.py] (class [RecruitmentAgent]) and
    the properties of its three-stage pipeline.

    Conventions of the embedding.
    - A [string] is a Python [str] whose code points are below 256 (ASCII and
      Latin-1), one character per code point; on such text [str.lower] works
      character by character.  Module [Unicode] widens the alphabet by
      U+0130, whose lower-casing is two code points.
    - Python numbers ([int] and [float] scores, years of experience) are
      exact rationals [Q]; numeric results are compared with [==], [<=], [<].
      The rounding of binary floating point is not modelled.
    - [set(a) & set(b)] is an intersection of [gset string]; the list built
      from such a set has no specified order in Python and is kept as a set.
    - The agent's [session_state] dict is a [gmap string value]; calls to the
      module logger and readings of the clock are explicit in the [world]
      threaded through every method. *)

From Stdlib Require Import Ascii QArith Qminmax Lqa.
From Stdlib Require Import Sorting.Sorted.
From stdpp Require Import gmap strings list fin_maps.

Local Open Scope string_scope.
Local Open Scope nat_scope.
Local Open Scope list_scope.

(** ** Strings: [str.lower] and the [in] operator *)

Module Str.

(** The code points below 256 that [str.lower] changes: A to Z, and the
    capital letters U+00C0 to U+00DE of Latin-1 (U+00D7, the multiplication
    sign, is not a letter).  Each goes to the code point 32 places up. *)
Definition is_upper (n : nat) : bool :=
  (Nat.leb 65 n && Nat.leb n 90
   || Nat.leb 192 n && Nat.leb n 222 && negb (Nat.eqb n 215))%bool.

Definition lower_ascii (c : ascii) : ascii :=
  let n := nat_of_ascii c in
  if is_upper n then ascii_of_nat (n + 32) else c.

Fixpoint lower (s : string) : string :=
  match s with
  | EmptyString => EmptyString
  | String c s' => String (lower_ascii c) (lower s')
  end.

(** [contains needle hay] is Python's [needle in hay] on strings. *)
Fixpoint contains (needle hay : string) : bool :=
  (String.prefix needle hay ||
   match hay with
   | EmptyString => false
   | String _ hay' => contains needle hay'
   end)%bool.

End Str.

(** ** Skill extractor *)

Definition keywords : list string :=
  ["Python"; "Java"; "Machine Learning"; "Data Analysis";
   "Cloud"; "SQL"; "API"; "Docker"].

(** The body of the [for keyword in keywords] loop. *)
Definition extract_step (text : string) (skills : list string) (keyword : string)
  : list string :=
  if Str.contains (Str.lower keyword) (Str.lower text)
  then skills ++ [keyword] else skills.

Definition _extract_skills (resume_text : string) : list string :=
  fold_left (extract_step resume_text) keywords [].

Definition _extract_job_requirements (job_description : string) : list string :=
  fold_left (extract_step job_description) keywords [].

(** ** Scorer *)

Definition skill_set (l : list string) : gset string := list_to_set l.

(** [len(set(a) & set(b))] *)
Definition overlap (a b : list string) : nat :=
  size (skill_set a ∩ skill_set b).

Definition Qnat (n : nat) : Q := inject_Z (Z.of_nat n).

Definition _calculate_match_score (candidate_skills required_skills : list string) : Q :=
  match required_skills with
  | [] => 0%Q
  | _ => (Qnat (overlap candidate_skills required_skills)
          / Qnat (length required_skills) * 100)%Q
  end.

(** Python's [max(a, b)] and [min(a, b)]: the first argument wins a tie. *)
Definition py_max (a b : Q) : Q := if Qlt_le_dec a b then b else a.
Definition py_min (a b : Q) : Q := if Qlt_le_dec b a then b else a.

(** * Data model *)

(** The [@dataclass CandidateProfile]. *)
Record CandidateProfile := {
  name : string;
  email : string;
  resume_text : string;
  skills : list string;
  experience_years : Q
}.

(** The [candidate_data] dict handed to [full_workflow].  The keys read with
    [candidate_data[...]] are required: a dict without one of them makes the
    workflow raise [KeyError] on the lookup and is not an input of this type.
    The keys read with [.get] may be absent. *)
Module Input.
Record candidate_data := {
  name : string;
  email : string;
  resume : string;
  skills : option (list string);
  experience_years : option Q
}.
End Input.

(** One entry of the job catalog.  [id], [title] and [company] are read with
    [job[...]] only and are required; [required_skills] and
    [years_experience_required] are read with [job.get] when scoring, so they
    may be absent from the dict. *)
Module Job.
Record record := {
  id : string;
  title : string;
  company : string;
  required_skills : option (list string);
  years_experience_required : option Q
}.
End Job.

Inductive recommendation := PASS | REVIEW | REJECT.

#[global] Instance recommendation_eq_dec : EqDecision recommendation.
Proof. solve_decision. Defined.

Module Screening.
Record result := {
  match_score : Q;
  resume_skills : list string;
  required_skills : list string;
  recommendation : recommendation;
  timestamp : string
}.
End Screening.

(** One element of [matches]. *)
Module Match.
Record entry := {
  job_id : string;
  title : string;
  company : string;
  match_score : Q;
  key_matches : gset string
}.
End Match.

Module Matching.
Record result := {
  candidate_id : string;
  total_matches_found : nat;
  top_matches : list Match.entry;
  timestamp : string
}.
End Matching.

Inductive category := Technical | Behavioral | RoleSpecific.

Module Question.
Record record := {
  id : nat;
  category : category;
  question : string
}.
End Question.

Module Interview.
Record result := {
  role : string;
  total_questions : nat;
  questions : list Question.record;
  difficulty_level : string;
  timestamp : string
}.
End Interview.

(** What [full_workflow] binds to [interview]: the plan of
    [generate_interview], or the dict [{"status": "NO_MATCHES"}]. *)
Inductive interview_outcome :=
| Plan (p : Interview.result)
| Sentinel (status : string).

(** The dicts [full_workflow] returns. *)
Inductive workflow_result :=
| Halted (status stage : string) (result : Screening.result)
| Combined (candidate_name overall_status : string)
    (screening : Screening.result) (matching : Matching.result)
    (interview : interview_outcome) (timestamp : string).

(** ** The world: session memory, logger, clock *)

(** The objects stored under a key of [session_state].  A stage builds its
    result dict once, stores it and returns it, and nothing changes it
    afterwards: the object in memory and the object returned are one value. *)
Inductive value :=
| VScreening (r : Screening.result)
| VMatching (r : Matching.result)
| VInterview (o : interview_outcome).

Inductive level := DEBUG | INFO | WARNING.

Record log_record := { lvl : level; msg : string }.

(** [log] lists the calls made to the module logger, oldest first;
    [clock n] is the text of the [n]-th coming [datetime.now().isoformat()]. *)
Record world := {
  session_state : gmap string value;
  log : list log_record;
  clock : nat → string
}.

Inductive py_error := KeyError (key : string).

Inductive outcome (A : Type) :=
| Ok (a : A)
| Raise (e : py_error).
Arguments Ok {A} a.
Arguments Raise {A} e.

(** A method of the agent: it runs in a world, returns or raises, and leaves
    a world behind (what was written before a raise stays written). *)
Definition M (A : Type) : Type := world → outcome A * world.

Definition ret {A} (a : A) : M A := fun w => (Ok a, w).

Definition bind {A B} (c : M A) (k : A → M B) : M B :=
  fun w => match c w with
           | (Ok a, w') => k a w'
           | (Raise e, w') => (Raise e, w')
           end.

Notation "x <- c ;; k" := (bind c (fun x => k))
  (at level 100, c at next level, right associativity).
Notation "c ;; k" := (bind c (fun _ => k))
  (at level 100, right associativity).

Definition logger (l : level) (m : string) : M unit :=
  fun w => (Ok tt, {| session_state := session_state w;
                      log := log w ++ [{| lvl := l; msg := m |}];
                      clock := clock w |}).

(** [datetime.now().isoformat()] *)
Definition now_isoformat : M string :=
  fun w => (Ok (clock w 0), {| session_state := session_state w;
                               log := log w;
                               clock := fun n => clock w (S n) |}).

Definition _save_to_memory (key : string) (v : value) : M unit :=
  fun w => logger DEBUG ("Saved to memory: " +:+ key)
             {| session_state := <[key := v]> (session_state w);
                log := log w;
                clock := clock w |}.

Definition get_session_state : M (gmap string value) :=
  fun w => (Ok (session_state w), w).

(** [RecruitmentAgent()] : an agent with an empty memory. *)
Definition __init__ (model : string) (l : list log_record) (c : nat → string) : world :=
  {| session_state := ∅;
     log := l ++ [{| lvl := INFO;
                     msg := "Initialized RecruitmentAgent with model: " +:+ model |}];
     clock := c |}.

(** * The stages *)

Definition _calculate_job_fit (candidate : CandidateProfile) (job : Job.record) : Q :=
  let rs := default [] (Job.required_skills job) in
  let skill_match := (Qnat (overlap (skills candidate) rs)
                      / py_max 1 (Qnat (length rs)))%Q in
  let exp_match :=
    py_min 1 (experience_years candidate
              / py_max 1 (default 1%Q (Job.years_experience_required job)))%Q in
  (skill_match * 60 + exp_match * 40)%Q.

Definition _find_skill_matches (candidate_skills job_skills : list string) : gset string :=
  skill_set candidate_skills ∩ skill_set job_skills.

(** The conditional expression of [screen_candidate]. *)
Definition recommend (match_score : Q) : recommendation :=
  if Qle_bool 70%Q match_score then PASS
  else if Qle_bool 50%Q match_score then REVIEW
  else REJECT.

Definition screen_candidate (resume_text job_description : string) : M Screening.result :=
  logger INFO "Screening candidate resume against job" ;;
  let resume_skills := _extract_skills resume_text in
  let job_skills := _extract_job_requirements job_description in
  let match_score := _calculate_match_score resume_skills job_skills in
  ts <- now_isoformat ;;
  let screening_result :=
    {| Screening.match_score := match_score;
       Screening.resume_skills := resume_skills;
       Screening.required_skills := job_skills;
       Screening.recommendation := recommend match_score;
       Screening.timestamp := ts |} in
  _save_to_memory "screening_result" (VScreening screening_result) ;;
  ret screening_result.

(** [list.sort(key=..., reverse=True)] is a stable sort: elements with equal
    keys keep their order.  [insert_desc x l] puts [x], which stood before
    all of [l], in front of the first element whose key is not greater. *)
Section Sort.
Context {A : Type} (key : A → Q).

Fixpoint insert_desc (x : A) (l : list A) : list A :=
  match l with
  | [] => [x]
  | y :: l' =>
      if Qlt_le_dec (key x) (key y) then y :: insert_desc x l'
      else x :: y :: l'
  end.

Definition sort_desc (l : list A) : list A := foldr insert_desc [] l.
End Sort.

(** The [for job in job_database] loop; [matches] is the list built so far. *)
Fixpoint match_loop (candidate : CandidateProfile) (job_database : list Job.record)
    (matches : list Match.entry) : outcome (list Match.entry) :=
  match job_database with
  | [] => Ok matches
  | job :: rest =>
      let score := _calculate_job_fit candidate job in
      if Qlt_le_dec 50%Q score then
        match Job.required_skills job with
        | None => Raise (KeyError "required_skills")
        | Some job_skills =>
            match_loop candidate rest
              (matches ++ [{| Match.job_id := Job.id job;
                              Match.title := Job.title job;
                              Match.company := Job.company job;
                              Match.match_score := score;
                              Match.key_matches :=
                                _find_skill_matches (skills candidate) job_skills |}])
        end
      else match_loop candidate rest matches
  end.

Definition lift {A} (o : outcome A) : M A := fun w => (o, w).

Definition match_jobs (candidate : CandidateProfile) (job_database : list Job.record)
  : M Matching.result :=
  logger INFO ("Matching jobs for candidate: " +:+ name candidate) ;;
  matches <- lift (match_loop candidate job_database []) ;;
  let matches := sort_desc Match.match_score matches in
  let top_matches := take 3 matches in
  ts <- now_isoformat ;;
  let matching_result :=
    {| Matching.candidate_id := name candidate;
       Matching.total_matches_found := length matches;
       Matching.top_matches := top_matches;
       Matching.timestamp := ts |} in
  _save_to_memory "matching_result" (VMatching matching_result) ;;
  ret matching_result.

Definition generate_interview (role_title : string) (candidate_skills : list string)
  : M Interview.result :=
  logger INFO ("Generating interview questions for role: " +:+ role_title) ;;
  let subject := match candidate_skills with
                 | s :: _ => s
                 | [] => "software development"
                 end in
  let questions :=
    [ {| Question.id := 1; Question.category := Technical;
         Question.question := "Describe your experience with " +:+ subject +:+ "?" |};
      {| Question.id := 2; Question.category := Technical;
         Question.question := "Walk us through a challenging project you've worked on." |};
      {| Question.id := 3; Question.category := Behavioral;
         Question.question := "How do you handle conflicts in a team environment?" |};
      {| Question.id := 4; Question.category := Behavioral;
         Question.question := "Tell us about a time you failed and what you learned." |};
      {| Question.id := 5; Question.category := RoleSpecific;
         Question.question := "Why are you interested in this " +:+ role_title +:+ " position?" |} ] in
  ts <- now_isoformat ;;
  let interview_result :=
    {| Interview.role := role_title;
       Interview.total_questions := length questions;
       Interview.questions := questions;
       Interview.difficulty_level := "MEDIUM";
       Interview.timestamp := ts |} in
  _save_to_memory "interview_questions" (VInterview (Plan interview_result)) ;;
  ret interview_result.

Definition is_reject (r : recommendation) : bool :=
  match r with REJECT => true | _ => false end.

Definition full_workflow (candidate_data : Input.candidate_data)
    (job_description : string) (jobs_db : list Job.record) : M workflow_result :=
  logger INFO ("Starting full workflow for: " +:+ Input.name candidate_data) ;;
  screening <- screen_candidate (Input.resume candidate_data) job_description ;;
  if is_reject (Screening.recommendation screening) then
    logger WARNING ("Candidate " +:+ Input.name candidate_data
                    +:+ " rejected in screening") ;;
    ret (Halted "REJECTED" "screening" screening)
  else
    let candidate :=
      {| name := Input.name candidate_data;
         email := Input.email candidate_data;
         resume_text := Input.resume candidate_data;
         skills := default [] (Input.skills candidate_data);
         experience_years := default 0%Q (Input.experience_years candidate_data) |} in
    matching <- match_jobs candidate jobs_db ;;
    interview <- match Matching.top_matches matching with
                 | best_match :: _ =>
                     p <- generate_interview (Match.title best_match) (skills candidate) ;;
                     ret (Plan p)
                 | [] => ret (Sentinel "NO_MATCHES")
                 end ;;
    ts <- now_isoformat ;;
    let workflow_result :=
      Combined (Input.name candidate_data) "COMPLETED"
               screening matching interview ts in
    logger INFO ("Workflow completed for " +:+ Input.name candidate_data) ;;
    ret workflow_result.

(** ** The sample data of [main] *)

Definition sample_candidate : Input.candidate_data :=
  {| Input.name := "Alice Johnson";
     Input.email := "alice@example.com";
     Input.resume := "Experienced Python developer with 5 years in Machine Learning and Cloud technologies. Proficient in Docker, SQL, and API development. Strong track record building scalable data pipelines.";
     Input.skills := Some ["Python"; "Machine Learning"; "Cloud"; "Docker"; "SQL"; "API"];
     Input.experience_years := Some 5%Q |}.

Definition sample_job_description : string :=
  "Senior Python Developer with Machine Learning expertise. Experience in Cloud platforms required. Strong SQL and API design skills needed.".

Definition sample_jobs : list Job.record :=
  [ {| Job.id := "job_001"; Job.title := "Senior ML Engineer"; Job.company := "TechCorp";
       Job.required_skills := Some ["Python"; "Machine Learning"; "Cloud"];
       Job.years_experience_required := Some 3%Q |};
    {| Job.id := "job_002"; Job.title := "Data Engineer"; Job.company := "DataFlow Inc";
       Job.required_skills := Some ["Python"; "SQL"; "Docker"];
       Job.years_experience_required := Some 2%Q |};
    {| Job.id := "job_003"; Job.title := "Backend Developer"; Job.company := "WebServices Ltd";
       Job.required_skills := Some ["Java"; "API"; "Docker"];
       Job.years_experience_required := Some 4%Q |} ].

(** [agent = RecruitmentAgent()] with nothing logged before. *)
Definition fresh (c : nat → string) : world := __init__ "gemini-2.0-flash" [] c.

(** * Specification-side definitions *)

(** The two ratios of the job-fit score as the design states them: the
    overlap over the number of required skills floored at one, and the
    experience over the required years (floored at one), capped at one. *)
Definition skill_ratio (candidate : CandidateProfile) (job : Job.record) : Q :=
  let rs := default [] (Job.required_skills job) in
  (Qnat (size (skill_set (skills candidate) ∩ skill_set rs))
   / Qmax 1 (Qnat (length rs)))%Q.

Definition experience_ratio (candidate : CandidateProfile) (job : Job.record) : Q :=
  Qmin 1 (experience_years candidate
          / Qmax 1 (default 1%Q (Job.years_experience_required job)))%Q.

(** Case-insensitive comparison, stated on the characters themselves.  A
    capital letter is one of A-Z, U+00C0-U+00D6, U+00D8-U+00DE; its small
    letter has the code 32 higher.  Two characters are the same letter when
    they are equal or one is the capital of the other. *)
Definition capital (n : nat) : Prop :=
  65 ≤ n ≤ 90 ∨ 192 ≤ n ≤ 214 ∨ 216 ≤ n ≤ 222.

Definition same_letter (a b : ascii) : Prop :=
  a = b
  ∨ (capital (nat_of_ascii a) ∧ nat_of_ascii b = nat_of_ascii a + 32)
  ∨ (capital (nat_of_ascii b) ∧ nat_of_ascii a = nat_of_ascii b + 32).

(** Two strings are equal up to letter case when they have the same length
    and the same letter at each position. *)
Fixpoint ci_equal (s t : string) : Prop :=
  match s, t with
  | EmptyString, EmptyString => True
  | String a s', String b t' => same_letter a b ∧ ci_equal s' t'
  | _, _ => False
  end.

(** A tag is a case-insensitive substring of a text when some stretch of the
    text equals the tag up to letter case. *)
Definition ci_substring (tag text : string) : Prop :=
  ∃ pre mid post, text = pre +:+ mid +:+ post ∧ ci_equal mid tag.

(** ** Text beyond Latin-1

    [str.lower] is not character by character on all of Unicode: the capital
    I with dot above, U+0130, lower-cases to the two code points "i" and
    U+0307 (combining dot above).  [Unicode.text] is a Python [str] over the
    code points below 256 and these two, with [str.lower], the [in] operator
    and the extraction loop on it. *)
Module Unicode.

Inductive code_point :=
| Latin1 (c : ascii)
| U0130
| U0307.

#[global] Instance code_point_eq_dec : EqDecision code_point.
Proof. solve_decision. Defined.

Definition text : Type := list code_point.

Fixpoint of_string (s : string) : text :=
  match s with
  | EmptyString => []
  | String a s' => Latin1 a :: of_string s'
  end.

Definition lower_cp (c : code_point) : text :=
  match c with
  | Latin1 a => [Latin1 (Str.lower_ascii a)]
  | U0130 => [Latin1 "i"%char; U0307]
  | U0307 => [U0307]
  end.

Fixpoint lower (t : text) : text :=
  match t with
  | [] => []
  | c :: t' => lower_cp c ++ lower t'
  end.

Fixpoint prefix (needle hay : text) : bool :=
  match needle, hay with
  | [], _ => true
  | a :: needle', b :: hay' => (bool_decide (a = b) && prefix needle' hay')%bool
  | _ :: _, [] => false
  end.

(** [needle in hay] *)
Fixpoint contains (needle hay : text) : bool :=
  (prefix needle hay ||
   match hay with
   | [] => false
   | _ :: hay' => contains needle hay'
   end)%bool.

Definition extract_step (t : text) (skills : list string) (keyword : string)
  : list string :=
  if contains (lower (of_string keyword)) (lower t)
  then skills ++ [keyword] else skills.

Definition _extract_skills (resume_text : text) : list string :=
  fold_left (extract_step resume_text) keywords [].

Definition _extract_job_requirements (job_description : text) : list string :=
  fold_left (extract_step job_description) keywords [].

(** Case-insensitive comparison on such text: U+0130 and U+0307 are the same
    letter as themselves only. *)
Definition same_cp (a b : code_point) : Prop :=
  match a, b with
  | Latin1 x, Latin1 y => same_letter x y
  | _, _ => a = b
  end.

Definition ci_equal (s t : text) : Prop := Forall2 same_cp s t.

Definition ci_substring (tag : string) (t : text) : Prop :=
  ∃ pre mid post, t = pre ++ mid ++ post ∧ ci_equal mid (of_string tag).

(** The text "AP" followed by U+0130. *)
Definition ap_dotted_i : text := [Latin1 "A"%char; Latin1 "P"%char; U0130].

End Unicode.

(** ** What each stage computes

    The result of a stage as a function of its arguments and of the clock
    reading it takes, and the elementary changes a stage makes to the world.
    The run lemmas below derive them from the stage definitions. *)

#[local] Instance Qlt_decision (x y : Q) : Decision (x < y)%Q :=
  match Qlt_le_dec x y with
  | left H => left H
  | right H => right (Qle_not_lt _ _ H)
  end.

Definition screening_of (resume_text job_description ts : string) : Screening.result :=
  let resume_skills := _extract_skills resume_text in
  let job_skills := _extract_job_requirements job_description in
  {| Screening.match_score := _calculate_match_score resume_skills job_skills;
     Screening.resume_skills := resume_skills;
     Screening.required_skills := job_skills;
     Screening.recommendation :=
       recommend (_calculate_match_score resume_skills job_skills);
     Screening.timestamp := ts |}.

(** The element of [matches] built for a job that passes the cutoff. *)
Definition entry_of (candidate : CandidateProfile) (job : Job.record) : Match.entry :=
  {| Match.job_id := Job.id job;
     Match.title := Job.title job;
     Match.company := Job.company job;
     Match.match_score := _calculate_job_fit candidate job;
     Match.key_matches :=
       _find_skill_matches (skills candidate) (default [] (Job.required_skills job)) |}.

Definition passing (candidate : CandidateProfile) (job_database : list Job.record)
  : list Job.record :=
  filter (λ job, (50 < _calculate_job_fit candidate job)%Q) job_database.

Definition matching_of (candidate : CandidateProfile) (job_database : list Job.record)
    (ts : string) : Matching.result :=
  let matches := sort_desc Match.match_score
                   (map (entry_of candidate) (passing candidate job_database)) in
  {| Matching.candidate_id := name candidate;
     Matching.total_matches_found := length matches;
     Matching.top_matches := take 3 matches;
     Matching.timestamp := ts |}.

Definition w_log (l : level) (m : string) (w : world) : world := (logger l m w).2.
Definition w_tick (w : world) : world := (now_isoformat w).2.
Definition w_save (key : string) (v : value) (w : world) : world :=
  (_save_to_memory key v w).2.

(** The profile [full_workflow] builds from its input dict. *)
Definition profile_of (candidate_data : Input.candidate_data) : CandidateProfile :=
  {| name := Input.name candidate_data;
     email := Input.email candidate_data;
     resume_text := Input.resume candidate_data;
     skills := default [] (Input.skills candidate_data);
     experience_years := default 0%Q (Input.experience_years candidate_data) |}.

(** The three keys of the session memory, and the INFO record with which a
    stage announces that it was entered. *)
Definition stage_keys : gset string :=
  {[ "screening_result"; "matching_result"; "interview_questions" ]}.

Definition info (m : string) : log_record := {| lvl := INFO; msg := m |}.
Definition debug (m : string) : log_record := {| lvl := DEBUG; msg := m |}.

Definition screening_entered : log_record :=
  info "Screening candidate resume against job".
Definition matching_entered (candidate_name : string) : log_record :=
  info ("Matching jobs for candidate: " +:+ candidate_name).
Definition interview_entered (role_title : string) : log_record :=
  info ("Generating interview questions for role: " +:+ role_title).
Definition saved (key : string) : log_record :=
  debug ("Saved to memory: " +:+ key).

Definition interview_of (role_title : string) (candidate_skills : list string)
    (ts : string) : Interview.result :=
  let subject := match candidate_skills with
                 | s :: _ => s
                 | [] => "software development"
                 end in
  let questions :=
    [ {| Question.id := 1; Question.category := Technical;
         Question.question := "Describe your experience with " +:+ subject +:+ "?" |};
      {| Question.id := 2; Question.category := Technical;
         Question.question := "Walk us through a challenging project you've worked on." |};
      {| Question.id := 3; Question.category := Behavioral;
         Question.question := "How do you handle conflicts in a team environment?" |};
      {| Question.id := 4; Question.category := Behavioral;
         Question.question := "Tell us about a time you failed and what you learned." |};
      {| Question.id := 5; Question.category := RoleSpecific;
         Question.question := "Why are you interested in this " +:+ role_title +:+ " position?" |} ] in
  {| Interview.role := role_title;
     Interview.total_questions := length questions;
     Interview.questions := questions;
     Interview.difficulty_level := "MEDIUM";
     Interview.timestamp := ts |}.

(** The world a stage leaves behind. *)
Definition after_screening (resume_text job_description : string) (w : world) : world :=
  w_save "screening_result"
    (VScreening (screening_of resume_text job_description (clock w 0)))
    (w_tick (w_log INFO "Screening candidate resume against job" w)).

Definition after_matching (candidate : CandidateProfile) (job_database : list Job.record)
    (w : world) : world :=
  w_save "matching_result"
    (VMatching (matching_of candidate job_database (clock w 0)))
    (w_tick (w_log INFO ("Matching jobs for candidate: " +:+ name candidate) w)).

Definition after_interview (role_title : string) (candidate_skills : list string)
    (w : world) : world :=
  w_save "interview_questions"
    (VInterview (Plan (interview_of role_title candidate_skills (clock w 0))))
    (w_tick (w_log INFO ("Generating interview questions for role: " +:+ role_title) w)).

(** The catalogue with positions: [(k, job)] for the job at index [k]. *)
Fixpoint index_from (k : nat) (job_database : list Job.record)
  : list (nat * Job.record) :=
  match job_database with
  | [] => []
  | job :: rest => (k, job) :: index_from (S k) rest
  end.

Definition indexed (job_database : list Job.record) : list (nat * Job.record) :=
  index_from 0 job_database.

(** [stable_desc key before x y]: [x] may stand before [y] in a list sorted
    by decreasing [key] in which equal keys keep the order [before]. *)
Definition stable_desc {A : Type} (key : A → Q) (before : A → A → Prop) (x y : A) : Prop :=
  (key y < key x)%Q ∨ (key y == key x)%Q ∧ before x y.

(** [ranked fit p q]: [p] may stand before [q] in a ranking by decreasing
    score in which equal scores keep the catalogue order. *)
Definition ranked (fit : Job.record → Q) : relation (nat * Job.record) :=
  stable_desc (λ p, fit p.2) (λ p q, p.1 < q.1).

(** The positions and jobs of the top matches: the jobs above the cutoff,
    ranked, the first three kept. *)
Definition ranking (candidate : CandidateProfile) (job_database : list Job.record)
  : list (nat * Job.record) :=
  take 3 (sort_desc (λ p, _calculate_job_fit candidate p.2)
            (filter (λ p, (50 < _calculate_job_fit candidate p.2)%Q)
               (indexed job_database))).

(** ** Session memory: the worlds an agent can be in *)

(** A world is reachable when it is that of a new agent or follows a reachable
    one by a call of a stage or of the workflow. *)
Inductive reachable : world → Prop :=
| reach_init model l c : reachable (__init__ model l c)
| reach_screen resume_text job_description w :
    reachable w → reachable (screen_candidate resume_text job_description w).2
| reach_match candidate job_database w :
    reachable w → reachable (match_jobs candidate job_database w).2
| reach_interview role_title candidate_skills w :
    reachable w → reachable (generate_interview role_title candidate_skills w).2
| reach_workflow candidate_data job_description jobs_db w :
    reachable w → reachable (full_workflow candidate_data job_description jobs_db w).2.

(** Each key holds the result of its own stage. *)
Definition well_keyed (w : world) : Prop :=
  ∀ k v, session_state w !! k = Some v →
    (k = "screening_result" ∧ ∃ r, v = VScreening r)
    ∨ (k = "matching_result" ∧ ∃ r, v = VMatching r)
    ∨ (k = "interview_questions" ∧ ∃ p, v = VInterview (Plan p)).

(** [stage_writes stage key inj]: in every world the stage returns a result,
    and the memory it leaves is the memory it found with the result stored
    under [key]. *)
Definition stage_writes {A : Type} (stage : M A) (key : string) (inj : A → value) : Prop :=
  ∀ w, ∃ r w', stage w = (Ok r, w')
               ∧ session_state w' = <[key := inj r]> (session_state w).

(** [plans_recorded r w w']: the outputs of the stages that ran, as the
    result [r] of a workflow run from [w] to [w'] returns them, are the objects
    in memory.  When [r] carries the sentinel the interview stage did not run,
    and the key [interview_questions] is as it was in [w], before the run. *)
Definition plans_recorded (r : workflow_result) (w w' : world) : Prop :=
  match r with
  | Halted _ _ scr => session_state w' !! "screening_result" = Some (VScreening scr)
  | Combined _ _ scr m itv _ =>
      session_state w' !! "screening_result" = Some (VScreening scr)
      ∧ session_state w' !! "matching_result" = Some (VMatching m)
      ∧ match itv with
        | Plan p => session_state w' !! "interview_questions" = Some (VInterview (Plan p))
        | Sentinel _ =>
            session_state w' !! "interview_questions" = session_state w !! "interview_questions"
        end
  end.

(** What a stage or a workflow run does to the memory: it stores results of
    stages under their keys, one after the other. *)
Inductive stores : gmap string value → gmap string value → Prop :=
| stores_none s : stores s s
| stores_screening s s' r :
    stores s s' → stores s (<["screening_result" := VScreening r]> s')
| stores_matching s s' r :
    stores s s' → stores s (<["matching_result" := VMatching r]> s')
| stores_interview s s' p :
    stores s s' → stores s (<["interview_questions" := VInterview (Plan p)]> s').

(** [overwrites first second key inj]: when [second] is called after [first],
    the memory left is the memory found before [first] with the result of
    [second] under [key]; nothing of the result of [first] remains. *)
Definition overwrites {A : Type} (first second : M A) (key : string) (inj : A → value)
  : Prop :=
  ∀ w, ∃ r1 w1 r2 w2,
    first w = (Ok r1, w1) ∧ second w1 = (Ok r2, w2)
    ∧ session_state w1 !! key = Some (inj r1)
    ∧ session_state w2 = <[key := inj r2]> (session_state w).

(** The records a workflow run adds to the log, read off its result.  A record
    [saved key] is written by [_save_to_memory] once the key is stored. *)
Definition workflow_trace (candidate_name : string) (r : workflow_result)
  : list log_record :=
  [ info ("Starting full workflow for: " +:+ candidate_name);
    screening_entered; saved "screening_result" ]
  ++ match r with
     | Halted _ _ _ =>
         [ {| lvl := WARNING;
              msg := "Candidate " +:+ candidate_name +:+ " rejected in screening" |} ]
     | Combined _ _ _ _ itv _ =>
         [ matching_entered candidate_name; saved "matching_result" ]
         ++ match itv with
            | Plan p => [ interview_entered (Interview.role p); saved "interview_questions" ]
            | Sentinel _ => []
            end
         ++ [ info ("Workflow completed for " +:+ candidate_name) ]
     end.

(** [ran_in_order cd jd jobs w r]: the stage outputs in the result [r] of a
    workflow run from [w] are those of the stages called one after the other,
    each in the world the previous one left, where the previous output is
    already in memory. *)
Definition ran_in_order (candidate_data : Input.candidate_data) (job_description : string)
    (jobs_db : list Job.record) (w : world) (r : workflow_result) : Prop :=
  let w0 := w_log INFO ("Starting full workflow for: " +:+ Input.name candidate_data) w in
  match r with
  | Halted _ _ scr =>
      ∃ w1, screen_candidate (Input.resume candidate_data) job_description w0 = (Ok scr, w1)
  | Combined _ _ scr m itv _ =>
      ∃ w1 w2,
        screen_candidate (Input.resume candidate_data) job_description w0 = (Ok scr, w1)
        ∧ session_state w1 !! "screening_result" = Some (VScreening scr)
        ∧ match_jobs (profile_of candidate_data) jobs_db w1 = (Ok m, w2)
        ∧ session_state w2 !! "screening_result" = Some (VScreening scr)
        ∧ session_state w2 !! "matching_result" = Some (VMatching m)
        ∧ match itv with
          | Plan p =>
              ∃ best rest w3,
                Matching.top_matches m = best :: rest
                ∧ generate_interview (Match.title best)
                    (skills (profile_of candidate_data)) w2 = (Ok p, w3)
          | Sentinel _ => Matching.top_matches m = []
          end
  end.

(** ** Small inputs used in examples *)

Definition example_candidate : CandidateProfile :=
  {| name := "Bob"; email := "bob@example.com"; resume_text := "";
     skills := ["Python"; "SQL"; "Docker"]; experience_years := 5%Q |}.

Definition example_job : Job.record :=
  {| Job.id := "job_003"; Job.title := "Backend Developer"; Job.company := "WebServices Ltd";
     Job.required_skills := Some ["Java"; "API"; "Docker"];
     Job.years_experience_required := Some 4%Q |}.

(** The second job of the sample catalogue. *)
Definition data_engineer_job : Job.record :=
  {| Job.id := "job_002"; Job.title := "Data Engineer"; Job.company := "DataFlow Inc";
     Job.required_skills := Some ["Python"; "SQL"; "Docker"];
     Job.years_experience_required := Some 2%Q |}.

(** A catalogue entry that has no [required_skills] key. *)
Definition bare_job : Job.record :=
  {| Job.id := "job_x"; Job.title := "Anything"; Job.company := "Somewhere";
     Job.required_skills := None;
     Job.years_experience_required := None |}.

Definition tick : nat → string := λ _, "2025-01-01T00:00:00".

(** ** Orders and variants of inputs used in further properties *)

(** The recommendations in increasing order of favour. *)
Definition rank (r : recommendation) : nat :=
  match r with REJECT => 0 | REVIEW => 1 | PASS => 2 end.

(** The sample candidate with fifty years of experience and no [skills] key. *)
Definition veteran_without_skills : Input.candidate_data :=
  {| Input.name := "Alice Johnson"; Input.email := "alice@example.com";
     Input.resume := Input.resume sample_candidate;
     Input.skills := None; Input.experience_years := Some 50%Q |}.

(** A candidate input with another [email] value. *)
Definition with_email (e : string) (candidate_data : Input.candidate_data)
  : Input.candidate_data :=
  {| Input.name := Input.name candidate_data;
     Input.email := e;
     Input.resume := Input.resume candidate_data;
     Input.skills := Input.skills candidate_data;
     Input.experience_years := Input.experience_years candidate_data |}.

(** * Properties *)

Example ex_lower : Str.lower "Machine Learning" = "machine learning".
Proof. reflexivity. Qed.

Example ex_extract :
  _extract_skills "I know python and sql." = ["Python"; "SQL"].
Proof. reflexivity. Qed.

Example ex_score :
  _calculate_match_score ["Python"; "SQL"] ["SQL"; "Java"; "Python"; "API"] == 50%Q.
Proof. vm_compute. reflexivity. Qed.

(** * Scorer: arithmetic *)

Section Arith.
Local Open Scope Q_scope.

Lemma Qnat_le (n m : nat) : (n ≤ m)%nat → Qnat n <= Qnat m.
Proof. intros H. unfold Qnat. rewrite <- Zle_Qle. lia. Qed.

Lemma Qnat_nonneg (n : nat) : 0 <= Qnat n.
Proof. apply (Qnat_le 0). lia. Qed.

Lemma Qnat_pos (n : nat) : (0 < n)%nat → 0 < Qnat n.
Proof. intros H. unfold Qnat. change 0 with (inject_Z 0). rewrite <- Zlt_Qlt. lia. Qed.

Lemma py_max_Qmax a b : py_max a b == Qmax a b.
Proof.
  unfold py_max. destruct (Qlt_le_dec a b) as [H|H].
  - symmetry. apply Q.max_r. lra.
  - symmetry. apply Q.max_l. lra.
Qed.

Lemma py_min_Qmin a b : py_min a b == Qmin a b.
Proof.
  unfold py_min. destruct (Qlt_le_dec b a) as [H|H].
  - symmetry. apply Q.min_r. lra.
  - symmetry. apply Q.min_l. lra.
Qed.

Lemma py_max_ge_l a b : a <= py_max a b.
Proof. unfold py_max. destruct (Qlt_le_dec a b); lra. Qed.

Lemma py_max_ge_r a b : b <= py_max a b.
Proof. unfold py_max. destruct (Qlt_le_dec a b); lra. Qed.

Lemma py_min_le_l a b : py_min a b <= a.
Proof. unfold py_min. destruct (Qlt_le_dec b a); lra. Qed.

Lemma py_min_glb a b c : c <= a → c <= b → c <= py_min a b.
Proof. unfold py_min. destruct (Qlt_le_dec b a); lra. Qed.

(** A quotient [a / b] with [0 <= a <= b] and [0 < b] is a ratio in [0,1]. *)
Lemma ratio_bounds a b : 0 <= a → a <= b → 0 < b → 0 <= a / b <= 1.
Proof.
  intros Ha Hab Hb. split.
  - apply Qle_shift_div_l; lra.
  - apply Qle_shift_div_r; lra.
Qed.

Lemma ratio_nonneg a b : 0 <= a → 0 < b → 0 <= a / b.
Proof. intros Ha Hb. apply Qle_shift_div_l; lra. Qed.
End Arith.

(** * Scorer: counting the common skills *)

Lemma size_skill_set_le (l : list string) : size (skill_set l) ≤ length l.
Proof.
  unfold skill_set. induction l as [|x l IH].
  - rewrite list_to_set_nil, size_empty. done.
  - rewrite list_to_set_cons, size_union_alt, size_singleton.
    assert (size (list_to_set l ∖ {[x]} : gset string) ≤ size (list_to_set l : gset string))
      by (apply subseteq_size; intros y Hy; by apply elem_of_difference in Hy as [? _]).
    simpl. lia.
Qed.

Lemma overlap_le_length (a b : list string) : overlap a b ≤ length b.
Proof.
  unfold overlap. etrans; [|apply size_skill_set_le].
  apply subseteq_size. intros y Hy. by apply elem_of_intersection in Hy as [_ ?].
Qed.

Lemma overlap_nil_r (a : list string) : overlap a [] = 0.
Proof. pose proof (overlap_le_length a []) as H. simpl in H. lia. Qed.

(** The common skills counted on lists: the distinct required skills that the
    candidate lists. *)
Lemma overlap_count (a b : list string) :
  overlap a b = length (filter (λ x, x ∈ a) (remove_dups b)).
Proof.
  unfold overlap, skill_set.
  rewrite <- (size_list_to_set (C:=gset string)).
  - f_equal. apply set_eq. intros x.
    rewrite elem_of_intersection, !elem_of_list_to_set, list_elem_of_filter,
      elem_of_remove_dups. tauto.
  - apply NoDup_filter, NoDup_remove_dups.
Qed.

(** * Scorer: scores and thresholds *)

Section ScorerFacts.
Local Open Scope Q_scope.

Lemma match_score_bounds (S R : list string) :
  0 <= _calculate_match_score S R <= 100.
Proof.
  destruct R as [|r R]; [simpl; lra|].
  unfold _calculate_match_score.
  destruct (ratio_bounds (Qnat (overlap S (r :: R))) (Qnat (length (r :: R)))) as [H0 H1].
  - apply Qnat_nonneg.
  - apply Qnat_le, overlap_le_length.
  - apply Qnat_pos. simpl. lia.
  - lra.
Qed.

(** C2. The screening match score lies in [0,100]; it is exactly [0] when the
    list of required skills is empty, whatever the resume skills, and
    otherwise it is the number of skills common to both sets, divided by
    the number of required skills, times 100. *)
Theorem match_score_spec (S R : list string) :
  0 <= _calculate_match_score S R <= 100
  ∧ (R = [] → _calculate_match_score S R = 0)
  ∧ (R ≠ [] →
     _calculate_match_score S R
     == Qnat (size (skill_set S ∩ skill_set R)) / Qnat (length R) * 100).
Proof.
  split; [apply match_score_bounds|]. split.
  - intros ->. reflexivity.
  - intros HR. destruct R; [done|]. reflexivity.
Qed.

Lemma match_score_spec_witness :
  _calculate_match_score ["Python"; "Docker"] [] = 0
  ∧ _calculate_match_score ["Python"; "Docker"] ["SQL"; "Python"; "SQL"]
    == Qnat 1 / Qnat 3 * 100.
Proof.
  split.
  - apply (match_score_spec ["Python"; "Docker"] []). reflexivity.
  - rewrite (proj2 (proj2 (match_score_spec ["Python"; "Docker"] ["SQL"; "Python"; "SQL"])))
      by discriminate.
    vm_compute. reflexivity.
Defined.

Lemma recommend_Qeq (s t : Q) : s == t → recommend s = recommend t.
Proof.
  intros E. unfold recommend.
  destruct (Qle_bool 70 s) eqn:H70, (Qle_bool 70 t) eqn:H70',
           (Qle_bool 50 s) eqn:H50, (Qle_bool 50 t) eqn:H50'; try reflexivity;
    repeat match goal with
           | H : Qle_bool _ _ = true |- _ => apply Qle_bool_iff in H
           | H : Qle_bool _ _ = false |- _ =>
               apply not_true_iff_false in H; rewrite Qle_bool_iff in H
           end; exfalso; lra.
Qed.

(** C3. The recommendation is a step function of the match score alone:
    a score of at least 70 gives PASS, a score from 50 up to but excluding
    70 gives REVIEW, a score below 50 gives REJECT; and the recommendation
    that screening returns is this function of the score it returns. *)
Theorem recommendation_steps (s : Q) :
  (70 <= s → recommend s = PASS)
  ∧ (50 <= s ∧ s < 70 → recommend s = REVIEW)
  ∧ (s < 50 → recommend s = REJECT)
  ∧ ∀ resume_text job_description w,
      ∃ r w', screen_candidate resume_text job_description w = (Ok r, w')
              ∧ Screening.recommendation r = recommend (Screening.match_score r).
Proof.
  unfold recommend. split; [|split; [|split]].
  - intros H. apply Qle_bool_iff in H. by rewrite H.
  - intros [H50 H70].
    destruct (Qle_bool 70 s) eqn:E; [apply Qle_bool_iff in E; lra|].
    apply Qle_bool_iff in H50. by rewrite H50.
  - intros H.
    destruct (Qle_bool 70 s) eqn:E; [apply Qle_bool_iff in E; lra|].
    destruct (Qle_bool 50 s) eqn:E'; [apply Qle_bool_iff in E'; lra|].
    reflexivity.
  - intros resume_text job_description w.
    exists (screening_of resume_text job_description (clock w 0)),
      (after_screening resume_text job_description w).
    split; reflexivity.
Qed.

Lemma recommendation_steps_witness :
  recommend 70 = PASS ∧ recommend (139 # 2) = REVIEW ∧ recommend 50 = REVIEW
  ∧ recommend (99 # 2) = REJECT.
Proof.
  split; [|split; [|split]].
  - apply (proj1 (recommendation_steps 70)). lra.
  - apply (proj1 (proj2 (recommendation_steps (139 # 2)))). lra.
  - apply (proj1 (proj2 (recommendation_steps 50))). lra.
  - apply (proj1 (proj2 (proj2 (recommendation_steps (99 # 2))))). lra.
Defined.

Lemma skill_match_eq (c : CandidateProfile) (j : Job.record) :
  let rs := default [] (Job.required_skills j) in
  Qnat (overlap (skills c) rs) / py_max 1 (Qnat (length rs)) == skill_ratio c j.
Proof. simpl. unfold skill_ratio, overlap. by rewrite py_max_Qmax. Qed.

Lemma exp_match_eq (c : CandidateProfile) (j : Job.record) :
  py_min 1 (experience_years c
            / py_max 1 (default 1 (Job.years_experience_required j)))
  == experience_ratio c j.
Proof. unfold experience_ratio. by rewrite py_min_Qmin, py_max_Qmax. Qed.

Lemma job_fit_weighted (c : CandidateProfile) (j : Job.record) :
  _calculate_job_fit c j == skill_ratio c j * 60 + experience_ratio c j * 40.
Proof.
  unfold _calculate_job_fit. cbv zeta.
  by rewrite skill_match_eq, exp_match_eq.
Qed.

Lemma skill_ratio_bounds (c : CandidateProfile) (j : Job.record) :
  0 <= skill_ratio c j <= 1.
Proof.
  rewrite <- skill_match_eq. cbv zeta.
  set (rs := default [] (Job.required_skills j)).
  pose proof (py_max_ge_l 1 (Qnat (length rs))).
  pose proof (py_max_ge_r 1 (Qnat (length rs))).
  pose proof (Qnat_le _ _ (overlap_le_length (skills c) rs)).
  apply ratio_bounds; [apply Qnat_nonneg|lra|lra].
Qed.

Lemma experience_ratio_le_1 (c : CandidateProfile) (j : Job.record) :
  experience_ratio c j <= 1.
Proof. rewrite <- exp_match_eq. apply py_min_le_l. Qed.

Lemma experience_ratio_nonneg (c : CandidateProfile) (j : Job.record) :
  0 <= experience_years c → 0 <= experience_ratio c j.
Proof.
  intros H. rewrite <- exp_match_eq. apply py_min_glb; [lra|].
  pose proof (py_max_ge_l 1 (default 1 (Job.years_experience_required j))).
  apply ratio_nonneg; lra.
Qed.

Lemma skill_ratio_no_required (c : CandidateProfile) (j : Job.record) :
  default [] (Job.required_skills j) = [] → skill_ratio c j == 0.
Proof.
  intros E. unfold skill_ratio. rewrite E.
  change (size (skill_set (skills c) ∩ skill_set [])) with (overlap (skills c) []).
  rewrite overlap_nil_r. reflexivity.
Qed.

(** C4. For a candidate (whose years of experience are not negative) and any
    job record, the job-fit score lies in [0,100] and is the skill ratio
    times 60 plus the experience ratio times 40.  The skill ratio divides
    by the number of required skills floored at one, so a job whose
    required skills are empty or absent has ratio 0; the experience ratio
    is capped at one.  With no common skill and zero experience the score
    is 0. *)
Theorem job_fit_spec (c : CandidateProfile) (j : Job.record) :
  0 <= experience_years c →
  0 <= _calculate_job_fit c j <= 100
  ∧ _calculate_job_fit c j == skill_ratio c j * 60 + experience_ratio c j * 40
  ∧ 0 <= skill_ratio c j <= 1
  ∧ 0 <= experience_ratio c j <= 1
  ∧ (default [] (Job.required_skills j) = [] → skill_ratio c j == 0)
  ∧ (skill_set (skills c) ∩ skill_set (default [] (Job.required_skills j)) = ∅ →
     experience_years c == 0 → _calculate_job_fit c j == 0).
Proof.
  intros Hexp.
  pose proof (skill_ratio_bounds c j) as Hs.
  pose proof (experience_ratio_le_1 c j) as He1.
  pose proof (experience_ratio_nonneg c j Hexp) as He0.
  pose proof (job_fit_weighted c j) as Hw.
  split; [lra|]. split; [exact Hw|]. split; [exact Hs|]. split; [lra|]. split.
  - apply skill_ratio_no_required.
  - intros Hno Hzero. rewrite Hw. unfold skill_ratio, experience_ratio.
    rewrite Hno, size_empty, Hzero.
    assert (0 / Qmax 1 (default 1 (Job.years_experience_required j)) == 0) as ->
      by apply Qmult_0_l.
    assert (Qnat 0 / Qmax 1 (Qnat (length (default [] (Job.required_skills j)))) == 0) as ->
      by apply Qmult_0_l.
    rewrite Q.min_r by lra. lra.
Qed.

Lemma job_fit_spec_witness :
  0 <= experience_years example_candidate
  ∧ 0 <= _calculate_job_fit example_candidate example_job <= 100
  ∧ _calculate_job_fit example_candidate example_job == 60.
Proof.
  assert (0 <= experience_years example_candidate) as H by (simpl; lra).
  split; [exact H|]. split.
  - exact (proj1 (job_fit_spec example_candidate example_job H)).
  - by vm_compute.
Defined.

(** With negative years of experience the score leaves [0,100]. *)
Example job_fit_negative_experience :
  _calculate_job_fit
    {| name := "Bob"; email := "bob@example.com"; resume_text := "";
       skills := []; experience_years := -1 |} example_job == -10.
Proof. by vm_compute. Qed.
End ScorerFacts.

(** * Skill extractor *)

Module StrFacts.
Import Str.

Lemma lower_app (a b : string) : lower (a +:+ b) = lower a +:+ lower b.
Proof. induction a as [|c a IH]; simpl; [done|]. by rewrite IH. Qed.

(** A split of the lower-cased text comes from a split of the text. *)
Lemma lower_app_inv (t a b : string) :
  lower t = a +:+ b → ∃ a' b', t = a' +:+ b' ∧ lower a' = a ∧ lower b' = b.
Proof.
  revert t. induction a as [|c a IH]; intros t H.
  - exists "", t. done.
  - destruct t as [|d t]; [discriminate|].
    simpl in H. injection H as Hc Ht.
    destruct (IH t Ht) as (a' & b' & -> & Ha & Hb).
    exists (String d a'), b'. simpl. by rewrite Hc, Ha.
Qed.

Lemma prefix_spec (n h : string) :
  String.prefix n h = true ↔ ∃ post, h = n +:+ post.
Proof.
  revert h. induction n as [|c n IH]; intros h.
  - split; [intros _; by exists h | by destruct h].
  - destruct h as [|d h]; simpl.
    + split; [discriminate | intros [post H]; discriminate].
    + destruct (ascii_dec c d) as [E|Hne]; [subst d|].
      * rewrite IH. split; intros [post H]; exists post.
        -- by rewrite H.
        -- by injection H.
      * split; [discriminate | intros [post H]; injection H; intros; congruence].
Qed.

(** [needle in hay]: the needle stands somewhere in the hay. *)
Lemma contains_spec (n h : string) :
  contains n h = true ↔ ∃ pre post, h = pre +:+ n +:+ post.
Proof.
  induction h as [|d h IH].
  - cbn [contains]. rewrite orb_false_r, prefix_spec. split.
    + intros [post H]. by exists "", post.
    + intros (pre & post & H). destruct pre; [by exists post|discriminate].
  - cbn [contains]. rewrite orb_true_iff, IH, prefix_spec. split.
    + intros [[post H] | (pre & post & H)].
      * by exists "", post.
      * exists (String d pre), post. simpl. by rewrite H.
    + intros (pre & post & H). destruct pre as [|e pre].
      * left. by exists post.
      * right. simpl in H. injection H as _ H. by exists pre, post.
Qed.

End StrFacts.

(** ** Letter case: [str.lower] against the comparison of letters *)

Lemma code_inj (a b : ascii) : nat_of_ascii a = nat_of_ascii b → a = b.
Proof.
  intros H. rewrite <- (ascii_nat_embedding a), <- (ascii_nat_embedding b).
  by rewrite H.
Qed.

Lemma is_upper_capital (n : nat) : Str.is_upper n = true ↔ capital n.
Proof.
  unfold Str.is_upper, capital.
  rewrite orb_true_iff, !andb_true_iff, !Nat.leb_le, negb_true_iff, Nat.eqb_neq. lia.
Qed.

Lemma lower_ascii_code (a : ascii) :
  nat_of_ascii (Str.lower_ascii a)
  = if Str.is_upper (nat_of_ascii a) then nat_of_ascii a + 32 else nat_of_ascii a.
Proof.
  unfold Str.lower_ascii. destruct (Str.is_upper (nat_of_ascii a)) eqn:E; [|done].
  apply nat_ascii_embedding. apply is_upper_capital in E. unfold capital in E. lia.
Qed.

(** Lower-casing identifies exactly the characters that are the same letter. *)
Lemma same_letter_lower (a b : ascii) :
  same_letter a b ↔ Str.lower_ascii a = Str.lower_ascii b.
Proof.
  assert (a = b ↔ nat_of_ascii a = nat_of_ascii b) as Hab
    by (split; [by intros ->|apply code_inj]).
  assert (Str.lower_ascii a = Str.lower_ascii b
          ↔ nat_of_ascii (Str.lower_ascii a) = nat_of_ascii (Str.lower_ascii b)) as Hl
    by (split; [by intros ->|apply code_inj]).
  unfold same_letter. rewrite Hab, Hl, !lower_ascii_code.
  pose proof (is_upper_capital (nat_of_ascii a)) as Ha.
  pose proof (is_upper_capital (nat_of_ascii b)) as Hb.
  destruct (Str.is_upper (nat_of_ascii a)), (Str.is_upper (nat_of_ascii b));
    unfold capital in *;
    repeat match goal with
           | H : true = true ↔ _ |- _ => destruct H as [H _]; specialize (H eq_refl)
           | H : false = true ↔ ?P |- _ =>
               assert (¬ P) by (intros HP; apply H in HP; discriminate); clear H
           end; lia.
Qed.

Lemma ci_equal_lower (s t : string) : ci_equal s t ↔ Str.lower s = Str.lower t.
Proof.
  revert t. induction s as [|a s IH]; intros [|b t]; simpl; try (split; [done|discriminate]).
  - done.
  - rewrite same_letter_lower, IH. split.
    + by intros [-> ->].
    + by intros [= -> ->].
Qed.

(** The test of the loop decides the case-insensitive substring relation. *)
Lemma contains_lower_ci (tag text : string) :
  Str.contains (Str.lower tag) (Str.lower text) = true ↔ ci_substring tag text.
Proof.
  rewrite StrFacts.contains_spec. unfold ci_substring. split.
  - intros (pre & post & H).
    apply StrFacts.lower_app_inv in H as (pre' & rest & -> & Hpre & Hrest).
    apply StrFacts.lower_app_inv in Hrest as (mid & post' & -> & Hmid & Hpost).
    exists pre', mid, post'. split; [done|]. by apply ci_equal_lower.
  - intros (pre & mid & post & -> & Hmid). apply ci_equal_lower in Hmid.
    exists (Str.lower pre), (Str.lower post).
    by rewrite !StrFacts.lower_app, Hmid.
Qed.

(** The loop appends, in vocabulary order, the keywords that pass the test. *)
Lemma extract_loop (text : string) (ks acc : list string) :
  fold_left (extract_step text) ks acc
  = acc ++ filter (λ k, Str.contains (Str.lower k) (Str.lower text) = true) ks.
Proof.
  revert acc. induction ks as [|k ks IH]; intros acc; simpl.
  - by rewrite app_nil_r.
  - rewrite IH. unfold extract_step. rewrite filter_cons.
    destruct (Str.contains (Str.lower k) (Str.lower text)) eqn:E.
    + rewrite decide_True by done. by rewrite <- app_assoc.
    + rewrite decide_False by done. done.
Qed.

Lemma extract_skills_filter (text : string) :
  _extract_skills text
  = filter (λ k, Str.contains (Str.lower k) (Str.lower text) = true) keywords.
Proof. unfold _extract_skills. by rewrite extract_loop. Qed.

Lemma extract_requirements_eq (text : string) :
  _extract_job_requirements text = _extract_skills text.
Proof. reflexivity. Qed.

(** ** The extractor on text beyond Latin-1 *)

Lemma lower_of_string (s : string) :
  Unicode.lower (Unicode.of_string s) = Unicode.of_string (Str.lower s).
Proof. induction s as [|a s IH]; simpl; [done|]. by rewrite IH. Qed.

Lemma prefix_of_string (n h : string) :
  Unicode.prefix (Unicode.of_string n) (Unicode.of_string h) = String.prefix n h.
Proof.
  revert h. induction n as [|a n IH]; intros [|b h]; simpl; try done.
  destruct (ascii_dec a b) as [->|Hne].
  - rewrite bool_decide_eq_true_2 by done. apply IH.
  - rewrite bool_decide_eq_false_2; [done|]. by intros [= ->].
Qed.

Lemma contains_of_string (n h : string) :
  Unicode.contains (Unicode.of_string n) (Unicode.of_string h) = Str.contains n h.
Proof.
  induction h as [|b h IH].
  - cbn [Unicode.of_string Unicode.contains Str.contains].
    by rewrite <- prefix_of_string.
  - cbn [Unicode.of_string Unicode.contains Str.contains].
    rewrite <- IH, <- prefix_of_string. reflexivity.
Qed.

Lemma extract_step_of_string (text : string) (acc : list string) (k : string) :
  Unicode.extract_step (Unicode.of_string text) acc k = extract_step text acc k.
Proof.
  unfold Unicode.extract_step, extract_step.
  by rewrite !lower_of_string, contains_of_string.
Qed.

(** On text of code points below 256 the wider extractor is the extractor. *)
Lemma extract_of_string (text : string) :
  Unicode._extract_skills (Unicode.of_string text) = _extract_skills text.
Proof.
  unfold Unicode._extract_skills, _extract_skills. generalize (@nil string).
  induction keywords as [|k ks IH]; intros acc; simpl; [done|].
  by rewrite extract_step_of_string, IH.
Qed.

Lemma unicode_extract_loop (t : Unicode.text) (ks acc : list string) :
  fold_left (Unicode.extract_step t) ks acc
  = acc ++ filter (λ k, Unicode.contains (Unicode.lower (Unicode.of_string k))
                          (Unicode.lower t) = true) ks.
Proof.
  revert acc. induction ks as [|k ks IH]; intros acc; simpl.
  - by rewrite app_nil_r.
  - rewrite IH. unfold Unicode.extract_step. rewrite filter_cons.
    destruct (Unicode.contains (Unicode.lower (Unicode.of_string k)) (Unicode.lower t)) eqn:E.
    + rewrite decide_True by done. by rewrite <- app_assoc.
    + rewrite decide_False by done. done.
Qed.

(** C8. For every text of code points below 256 (every ASCII or Latin-1
    text), skill extraction puts a tag in its result exactly when the tag is
    in the vocabulary and is a case-insensitive substring of the text: some
    stretch of the text has the same letters as the tag.  The result is the
    vocabulary filtered by the test of the loop, so it is determined by the
    text alone; the empty text yields the empty result.  Both extractors
    behave so.  On wider text the extractor agrees with this one on the
    code points below 256, and in general it includes a tag exactly when the
    lower-cased tag occurs in the lower-cased text. *)
Theorem extract_spec (text tag : string) :
  (tag ∈ _extract_skills text ↔ tag ∈ keywords ∧ ci_substring tag text)
  ∧ (tag ∈ _extract_job_requirements text ↔ tag ∈ keywords ∧ ci_substring tag text)
  ∧ _extract_skills text
    = filter (λ k, Str.contains (Str.lower k) (Str.lower text) = true) keywords
  ∧ _extract_job_requirements text
    = filter (λ k, Str.contains (Str.lower k) (Str.lower text) = true) keywords
  ∧ _extract_skills "" = []
  ∧ _extract_job_requirements "" = []
  ∧ Unicode._extract_skills (Unicode.of_string text) = _extract_skills text
  ∧ Unicode._extract_job_requirements (Unicode.of_string text)
    = _extract_job_requirements text
  ∧ ∀ t : Unicode.text,
      tag ∈ Unicode._extract_skills t
      ↔ tag ∈ keywords
        ∧ Unicode.contains (Unicode.lower (Unicode.of_string tag)) (Unicode.lower t) = true.
Proof.
  assert (tag ∈ _extract_skills text ↔ tag ∈ keywords ∧ ci_substring tag text) as H.
  { rewrite extract_skills_filter, list_elem_of_filter, contains_lower_ci. tauto. }
  split; [exact H|]. split; [by rewrite extract_requirements_eq|].
  split; [apply extract_skills_filter|].
  split; [by rewrite extract_requirements_eq, extract_skills_filter|].
  split; [reflexivity|]. split; [reflexivity|].
  split; [apply extract_of_string|]. split; [apply extract_of_string|].
  intros t. unfold Unicode._extract_skills.
  rewrite unicode_extract_loop. cbn [app]. rewrite list_elem_of_filter. tauto.
Qed.

(** The text "AP" followed by U+0130 lower-cases to "api" followed by U+0307,
    in which "api" occurs: API is extracted, although the text has three code
    points and the third is not the letter I in either case. *)
Lemma dotted_capital_i_extracts_api :
  Unicode.lower Unicode.ap_dotted_i
  = [Unicode.Latin1 "a"%char; Unicode.Latin1 "p"%char; Unicode.Latin1 "i"%char;
     Unicode.U0307]
  ∧ "API" ∈ Unicode._extract_skills Unicode.ap_dotted_i
  ∧ "API" ∈ keywords
  ∧ ¬ Unicode.ci_substring "API" Unicode.ap_dotted_i.
Proof.
  split; [reflexivity|].
  split; [apply (bool_decide_unpack _); by vm_compute|].
  split; [apply (bool_decide_unpack _); by vm_compute|].
  intros (pre & mid & post & E & H).
  pose proof (Forall2_length _ _ _ H) as Hlen. simpl in Hlen.
  pose proof (f_equal length E) as HE. rewrite !length_app in HE. simpl in HE.
  destruct pre as [|? pre]; [|simpl in HE; lia].
  destruct post as [|? post]; [|simpl in HE; lia].
  simpl in E. rewrite app_nil_r in E. subst mid.
  unfold Unicode.ci_equal, Unicode.ap_dotted_i in H. simpl in H.
  apply Forall2_cons in H as [_ H]. apply Forall2_cons in H as [_ H].
  apply Forall2_cons in H as [H _]. simpl in H. discriminate.
Qed.

(** * Job matching *)

Section Matching.
Local Open Scope Q_scope.

(** A job without a [required_skills] key scores at most 40. *)
Lemma job_fit_without_required (c : CandidateProfile) (j : Job.record) :
  Job.required_skills j = None → _calculate_job_fit c j <= 40.
Proof.
  intros E. rewrite job_fit_weighted.
  rewrite (skill_ratio_no_required c j) by (by rewrite E).
  pose proof (experience_ratio_le_1 c j). lra.
Qed.

(** The loop never raises: the lookup [job["required_skills"]] is reached
    only for a job that has the key. *)
Lemma match_loop_ok (c : CandidateProfile) (jobs : list Job.record)
    (acc : list Match.entry) :
  match_loop c jobs acc = Ok (acc ++ map (entry_of c) (passing c jobs)).
Proof.
  revert acc. induction jobs as [|j jobs IH]; intros acc.
  - simpl. by rewrite app_nil_r.
  - cbn [match_loop]. cbv zeta. unfold passing. rewrite filter_cons.
    destruct (Qlt_le_dec 50 (_calculate_job_fit c j)) as [Hgt|Hle].
    + rewrite decide_True by done.
      destruct (Job.required_skills j) as [rs|] eqn:E.
      * rewrite IH. f_equal. rewrite <- app_assoc. simpl.
        unfold entry_of. by rewrite E.
      * pose proof (job_fit_without_required c j E). lra.
    + rewrite decide_False by (intros H; lra). apply IH.
Qed.

Lemma match_jobs_run (c : CandidateProfile) (jobs : list Job.record) (w : world) :
  match_jobs c jobs w
  = (Ok (matching_of c jobs (clock w 0)), after_matching c jobs w).
Proof.
  unfold match_jobs, bind, lift. cbn [logger]. rewrite match_loop_ok. reflexivity.
Qed.
End Matching.

Lemma screen_candidate_run (resume_text job_description : string) (w : world) :
  screen_candidate resume_text job_description w
  = (Ok (screening_of resume_text job_description (clock w 0)),
     after_screening resume_text job_description w).
Proof. reflexivity. Qed.

Lemma generate_interview_run (role_title : string) (candidate_skills : list string)
    (w : world) :
  generate_interview role_title candidate_skills w
  = (Ok (interview_of role_title candidate_skills (clock w 0)),
     after_interview role_title candidate_skills w).
Proof. reflexivity. Qed.

(** * The stable descending sort *)

Section SortFacts.
Context {A : Type} (key : A → Q).
Local Open Scope Q_scope.

Lemma insert_desc_perm (x : A) (l : list A) : insert_desc key x l ≡ₚ x :: l.
Proof.
  induction l as [|y l IH]; simpl; [done|].
  destruct (Qlt_le_dec (key x) (key y)); [|done].
  rewrite IH. apply Permutation_swap.
Qed.

Lemma sort_desc_perm (l : list A) : sort_desc key l ≡ₚ l.
Proof.
  induction l as [|x l IH]; simpl; [done|].
  rewrite insert_desc_perm. by rewrite IH.
Qed.

(** [before] is the order of the input; the sort orders by decreasing key
    and keeps [before] among equal keys. *)
Context (before : A → A → Prop).

Lemma insert_desc_sorted (x : A) (l : list A) :
  StronglySorted (stable_desc key before) l → Forall (before x) l →
  StronglySorted (stable_desc key before) (insert_desc key x l).
Proof.
  induction l as [|y l IH]; intros Hs Hb; simpl.
  - constructor; constructor.
  - apply StronglySorted_inv in Hs as [Hs Hy].
    apply Forall_cons in Hb as [Hxy Hb].
    destruct (Qlt_le_dec (key x) (key y)) as [Hlt|Hle].
    + constructor; [by apply IH|].
      rewrite insert_desc_perm. constructor; [by left|done].
    + constructor; [by constructor|].
      assert (stable_desc key before x y) as Hxy'.
      { destruct (Qlt_le_dec (key y) (key x)); [by left|].
        right. split; [lra|done]. }
      constructor; [done|].
      rewrite Forall_forall in Hy, Hb. apply Forall_forall. intros z Hz.
      specialize (Hy z Hz). specialize (Hb z Hz).
      destruct (Qlt_le_dec (key z) (key x)); [by left|].
      right. split; [|done]. destruct Hy as [?|[? _]]; lra.
Qed.

Lemma sort_desc_sorted (l : list A) :
  StronglySorted before l → StronglySorted (stable_desc key before) (sort_desc key l).
Proof.
  induction l as [|x l IH]; intros Hs; simpl; [constructor|].
  apply StronglySorted_inv in Hs as [Hs Hx].
  apply insert_desc_sorted; [by apply IH|].
  by rewrite sort_desc_perm.
Qed.
End SortFacts.

Lemma insert_desc_map {A B : Type} (f : A → B) (key : B → Q) (x : A) (l : list A) :
  insert_desc key (f x) (map f l) = map f (insert_desc (key ∘ f) x l).
Proof.
  induction l as [|y l IH]; simpl; [done|].
  destruct (Qlt_le_dec (key (f x)) (key (f y))); simpl; [by rewrite IH|done].
Qed.

(** Sorting looks at the key only, so it commutes with a map. *)
Lemma sort_desc_map {A B : Type} (f : A → B) (key : B → Q) (l : list A) :
  sort_desc key (map f l) = map f (sort_desc (key ∘ f) l).
Proof.
  induction l as [|x l IH]; simpl; [done|].
  by rewrite IH, insert_desc_map.
Qed.

Lemma StronglySorted_take {A : Type} (R : A → A → Prop) (n : nat) (l : list A) :
  StronglySorted R l → StronglySorted R (take n l).
Proof.
  intros Hs. revert n. induction Hs as [|x l Hs IH Hx]; intros [|n]; simpl;
    try constructor; [apply IH|].
  eapply Forall_impl; [|by intros ? H; exact H].
  apply Forall_take. done.
Qed.

(** * The top matches *)

Section TopMatches.
Local Open Scope Q_scope.
Context (c : CandidateProfile).

Lemma index_from_lookup (k : nat) (jobs : list Job.record) :
  Forall (λ p, (k ≤ p.1)%nat ∧ jobs !! (p.1 - k)%nat = Some p.2) (index_from k jobs).
Proof.
  revert k. induction jobs as [|j jobs IH]; intros k; simpl; constructor.
  - simpl. split; [lia|]. by rewrite Nat.sub_diag.
  - eapply Forall_impl; [apply (IH (S k))|]. intros [i j'] [Hle Hl]. simpl in *.
    split; [lia|]. by replace (i - k)%nat with (S (i - S k)) by lia.
Qed.

Lemma index_from_increasing (k : nat) (jobs : list Job.record) :
  StronglySorted (λ p q : nat * Job.record, (p.1 < q.1)%nat) (index_from k jobs).
Proof.
  revert k. induction jobs as [|j jobs IH]; intros k; simpl; constructor; [apply IH|].
  eapply Forall_impl; [apply (index_from_lookup (S k))|].
  intros [i j'] [Hle _]. simpl in *. lia.
Qed.

Lemma index_from_passing (k : nat) (jobs : list Job.record) :
  map snd (filter (λ p : nat * Job.record, 50 < _calculate_job_fit c p.2)
             (index_from k jobs))
  = passing c jobs.
Proof.
  unfold passing. revert k. induction jobs as [|j jobs IH]; intros k; simpl; [done|].
  rewrite !filter_cons. simpl.
  destruct (decide (50 < _calculate_job_fit c j)); simpl; by rewrite IH.
Qed.

Lemma StronglySorted_filter {A : Type} (R : A → A → Prop) (P : A → Prop)
    `{∀ x, Decision (P x)} (l : list A) :
  StronglySorted R l → StronglySorted R (filter P l).
Proof.
  induction 1 as [|x l Hs IH Hx]; [constructor|].
  rewrite filter_cons. destruct (decide (P x)); [|done].
  constructor; [done|].
  rewrite Forall_forall in Hx. apply Forall_forall. intros y Hy.
  apply list_elem_of_filter in Hy as [_ Hy]. by apply Hx.
Qed.

(** The top matches are the entries of the ranking. *)
Lemma top_matches_ranking (jobs : list Job.record) (ts : string) :
  Matching.top_matches (matching_of c jobs ts) = map (entry_of c ∘ snd) (ranking c jobs).
Proof.
  unfold matching_of, ranking, indexed. cbn [Matching.top_matches].
  rewrite <- (index_from_passing 0), <- list_fmap_compose.
  rewrite sort_desc_map, fmap_take. reflexivity.
Qed.

Lemma ranking_elements (jobs : list Job.record) :
  Forall (λ p, jobs !! p.1 = Some p.2 ∧ 50 < _calculate_job_fit c p.2) (ranking c jobs).
Proof.
  unfold ranking. apply Forall_take. rewrite sort_desc_perm.
  apply Forall_forall. intros p Hp. apply list_elem_of_filter in Hp as [Hgt Hp].
  split; [|done].
  pose proof (index_from_lookup 0 jobs) as H. rewrite Forall_forall in H.
  destruct (H p Hp) as [_ Hl]. by rewrite Nat.sub_0_r in Hl.
Qed.

Lemma ranking_ranked (jobs : list Job.record) :
  StronglySorted (ranked (_calculate_job_fit c)) (ranking c jobs).
Proof.
  unfold ranking, ranked. apply StronglySorted_take, sort_desc_sorted.
  apply StronglySorted_filter, index_from_increasing.
Qed.

Lemma ranking_length (jobs : list Job.record) : (length (ranking c jobs) ≤ 3)%nat.
Proof. unfold ranking. rewrite length_take. lia. Qed.

Lemma ranked_descending (l : list (nat * Job.record)) :
  StronglySorted (ranked (_calculate_job_fit c)) l →
  StronglySorted (λ e1 e2, Match.match_score e2 <= Match.match_score e1)
    (map (entry_of c ∘ snd) l).
Proof.
  induction 1 as [|p l Hs IH Hp]; simpl; constructor; [done|].
  apply Forall_fmap. eapply Forall_impl; [exact Hp|].
  intros q [Hlt|[Heq _]]; simpl in *; lra.
Qed.
End TopMatches.

(** C5. For every candidate and job catalogue, job matching returns a result
    whose top matches are at most 3, are the entries of catalogue jobs that
    each score strictly more than 50, stand in non-increasing order of match
    score, and among equal scores stand in the order of the catalogue. *)
Theorem top_matches_invariant (candidate : CandidateProfile)
    (job_database : list Job.record) (w : world) :
  ∃ (r : Matching.result) (w' : world) (top : list (nat * Job.record)),
    match_jobs candidate job_database w = (Ok r, w')
    ∧ length (Matching.top_matches r) ≤ 3
    ∧ Matching.top_matches r = map (entry_of candidate ∘ snd) top
    ∧ Forall (λ p, job_database !! p.1 = Some p.2
                   ∧ (50 < _calculate_job_fit candidate p.2)%Q) top
    ∧ StronglySorted (ranked (_calculate_job_fit candidate)) top
    ∧ StronglySorted (λ e1 e2, (Match.match_score e2 <= Match.match_score e1)%Q)
        (Matching.top_matches r)
    ∧ Forall (λ e, (50 < Match.match_score e)%Q) (Matching.top_matches r).
Proof.
  eexists _, _, (ranking candidate job_database).
  split; [apply match_jobs_run|].
  rewrite top_matches_ranking.
  pose proof (ranking_elements candidate job_database) as Hel.
  pose proof (ranking_ranked candidate job_database) as Hrk.
  split; [rewrite length_map; apply ranking_length|].
  split; [done|]. split; [done|]. split; [done|].
  split; [by apply ranked_descending|].
  apply Forall_fmap. eapply Forall_impl; [exact Hel|].
  by intros p [_ H].
Qed.

Example sort_desc_keeps_ties :
  sort_desc snd [("a", 60%Q); ("b", 80%Q); ("c", 60%Q); ("d", 80%Q); ("e", 100%Q)]
  = [("e", 100%Q); ("b", 80%Q); ("d", 80%Q); ("a", 60%Q); ("c", 60%Q)].
Proof. reflexivity. Qed.

Example sample_top_matches :
  (Match.title <$> Matching.top_matches
     (matching_of (profile_of sample_candidate) sample_jobs ""),
   Match.match_score <$> Matching.top_matches
     (matching_of (profile_of sample_candidate) sample_jobs ""))
  = (["Senior ML Engineer"; "Data Engineer"; "Backend Developer"],
     [300 # 3; 300 # 3; 240 # 3]%Q).
Proof. by vm_compute. Qed.

(** However long the experience, a job without the key stays at 40 and is
    left out. *)
Example bare_job_left_out :
  _calculate_job_fit example_candidate bare_job = (40 # 1)%Q
  ∧ match_loop example_candidate [bare_job; example_job] []
    = Ok [entry_of example_candidate example_job].
Proof. split; by vm_compute. Qed.

(** C10. A catalogue job without a [required_skills] key has a job-fit score
    of at most 40, hence not above 50: it is not among the jobs for which a
    match entry is built, the lookup [job["required_skills"]] of that branch
    is not reached for it, and [match_jobs] returns a result instead of
    raising [KeyError], whatever the catalogue. *)
Theorem missing_required_skills_safe (candidate : CandidateProfile)
    (job_database : list Job.record) (w : world) :
  (∀ job, job ∈ job_database → Job.required_skills job = None →
     (_calculate_job_fit candidate job <= 40)%Q
     ∧ ¬ (50 < _calculate_job_fit candidate job)%Q
     ∧ job ∉ passing candidate job_database)
  ∧ (∀ matches, ∃ matches',
       match_loop candidate job_database matches = Ok matches')
  ∧ ∃ r w', match_jobs candidate job_database w = (Ok r, w').
Proof.
  split; [|split].
  - intros job _ Hnone.
    pose proof (job_fit_without_required candidate job Hnone) as H40.
    split; [done|]. split; [intros H; lra|].
    unfold passing. rewrite list_elem_of_filter. intros [H _]. lra.
  - intros matches. rewrite match_loop_ok. eauto.
  - rewrite match_jobs_run. eauto.
Qed.

(** * The workflow *)

Section Workflow.
Context (cd : Input.candidate_data) (jd : string) (jobs : list Job.record) (w : world).

Let w0 : world := w_log INFO ("Starting full workflow for: " +:+ Input.name cd) w.
Let scr : Screening.result := screening_of (Input.resume cd) jd (clock w 0).
Let w1 : world := after_screening (Input.resume cd) jd w0.
Let m : Matching.result := matching_of (profile_of cd) jobs (clock w 1).
Let w2 : world := after_matching (profile_of cd) jobs w1.

Lemma full_workflow_rejected :
  Screening.recommendation scr = REJECT →
  full_workflow cd jd jobs w
  = (Ok (Halted "REJECTED" "screening" scr),
     w_log WARNING ("Candidate " +:+ Input.name cd +:+ " rejected in screening") w1).
Proof.
  intros H. unfold full_workflow, bind. cbn [logger].
  rewrite screen_candidate_run. cbv beta iota.
  change (screening_of _ _ _) with scr. rewrite H. reflexivity.
Qed.

Lemma full_workflow_no_matches :
  Screening.recommendation scr ≠ REJECT →
  Matching.top_matches m = [] →
  full_workflow cd jd jobs w
  = (Ok (Combined (Input.name cd) "COMPLETED" scr m (Sentinel "NO_MATCHES") (clock w 2)),
     w_log INFO ("Workflow completed for " +:+ Input.name cd) (w_tick w2)).
Proof.
  intros H Hm. unfold full_workflow, bind. cbn [logger].
  rewrite screen_candidate_run. cbv beta iota.
  change (screening_of _ _ _) with scr.
  destruct (Screening.recommendation scr) eqn:E; [| |done]; cbn [is_reject];
    change (Build_CandidateProfile _ _ _ _ _) with (profile_of cd);
    rewrite match_jobs_run; cbv beta iota;
    change (matching_of _ _ _) with m; rewrite Hm; reflexivity.
Qed.

Lemma full_workflow_matches (best : Match.entry) (rest : list Match.entry) :
  Screening.recommendation scr ≠ REJECT →
  Matching.top_matches m = best :: rest →
  full_workflow cd jd jobs w
  = (Ok (Combined (Input.name cd) "COMPLETED" scr m
           (Plan (interview_of (Match.title best) (skills (profile_of cd)) (clock w 2)))
           (clock w 3)),
     w_log INFO ("Workflow completed for " +:+ Input.name cd)
       (w_tick (after_interview (Match.title best) (skills (profile_of cd)) w2))).
Proof.
  intros H Hm. unfold full_workflow, bind. cbn [logger].
  rewrite screen_candidate_run. cbv beta iota.
  change (screening_of _ _ _) with scr.
  destruct (Screening.recommendation scr) eqn:E; [| |done]; cbn [is_reject];
    change (Build_CandidateProfile _ _ _ _ _) with (profile_of cd);
    rewrite match_jobs_run; cbv beta iota;
    change (matching_of _ _ _) with m; rewrite Hm; reflexivity.
Qed.
End Workflow.

Ltac world_simpl :=
  unfold after_interview, after_matching, after_screening, w_save, w_tick, w_log;
  cbn [session_state log clock logger now_isoformat _save_to_memory fst snd].

Section WorkflowMemory.
Context (cd : Input.candidate_data) (jd : string) (jobs : list Job.record) (w : world).

Let scr : Screening.result := screening_of (Input.resume cd) jd (clock w 0).
Let m : Matching.result := matching_of (profile_of cd) jobs (clock w 1).

Lemma memory_rejected :
  Screening.recommendation scr = REJECT →
  session_state (full_workflow cd jd jobs w).2
  = <["screening_result" := VScreening scr]> (session_state w).
Proof. intros H. rewrite full_workflow_rejected by done. reflexivity. Qed.

Lemma memory_no_matches :
  Screening.recommendation scr ≠ REJECT → Matching.top_matches m = [] →
  session_state (full_workflow cd jd jobs w).2
  = <["matching_result" := VMatching m]>
      (<["screening_result" := VScreening scr]> (session_state w)).
Proof. intros H Hm. rewrite full_workflow_no_matches by done. reflexivity. Qed.

Lemma memory_matches (best : Match.entry) (rest : list Match.entry) :
  Screening.recommendation scr ≠ REJECT → Matching.top_matches m = best :: rest →
  session_state (full_workflow cd jd jobs w).2
  = <["interview_questions" :=
        VInterview (Plan (interview_of (Match.title best) (skills (profile_of cd)) (clock w 2)))]>
      (<["matching_result" := VMatching m]>
         (<["screening_result" := VScreening scr]> (session_state w))).
Proof. intros H Hm. rewrite (full_workflow_matches _ _ _ _ best rest) by done. reflexivity. Qed.
End WorkflowMemory.

(** C1. In every world and for every candidate input, job description and
    catalogue, the workflow returns the dict
    [{status: REJECTED, stage: "screening", result}] exactly when the
    recommendation of the screening it ran is REJECT.  In that case the only
    change to the memory is the screening result, and no record of entering
    the matching or the interview stage is logged.  Otherwise the matching
    stage is entered in the world screening left, and its result is part of
    the combined dict the workflow returns. *)
Theorem workflow_halts_iff_reject (candidate_data : Input.candidate_data)
    (job_description : string) (jobs_db : list Job.record) (w : world) :
  ∃ (screening : Screening.result) (w1 : world),
    screen_candidate (Input.resume candidate_data) job_description
      (w_log INFO ("Starting full workflow for: " +:+ Input.name candidate_data) w)
    = (Ok screening, w1)
    ∧ ((full_workflow candidate_data job_description jobs_db w).1
         = Ok (Halted "REJECTED" "screening" screening)
       ↔ Screening.recommendation screening = REJECT)
    ∧ (Screening.recommendation screening = REJECT →
         session_state (full_workflow candidate_data job_description jobs_db w).2
           = <["screening_result" := VScreening screening]> (session_state w)
         ∧ ∃ new,
             log (full_workflow candidate_data job_description jobs_db w).2 = log w ++ new
             ∧ (∀ n, matching_entered n ∉ new)
             ∧ (∀ t, interview_entered t ∉ new))
    ∧ (Screening.recommendation screening ≠ REJECT →
         ∃ (matching : Matching.result) (w2 : world) interview ts new,
           match_jobs (profile_of candidate_data) jobs_db w1 = (Ok matching, w2)
           ∧ (full_workflow candidate_data job_description jobs_db w).1
             = Ok (Combined (Input.name candidate_data) "COMPLETED"
                     screening matching interview ts)
           ∧ log (full_workflow candidate_data job_description jobs_db w).2 = log w ++ new
           ∧ matching_entered (Input.name candidate_data) ∈ new).
Proof.
  eexists _, _. split; [apply screen_candidate_run|].
  world_simpl.
  set (scr := screening_of (Input.resume candidate_data) job_description (clock w 0)).
  set (m := matching_of (profile_of candidate_data) jobs_db (clock w 1)).
  assert (Screening.recommendation scr = REJECT →
          (full_workflow candidate_data job_description jobs_db w).1
          = Ok (Halted "REJECTED" "screening" scr)) as Hhalt.
  { intros H. by rewrite full_workflow_rejected. }
  assert (Screening.recommendation scr ≠ REJECT →
          ∃ interview ts new,
            (full_workflow candidate_data job_description jobs_db w).1
            = Ok (Combined (Input.name candidate_data) "COMPLETED" scr m interview ts)
            ∧ log (full_workflow candidate_data job_description jobs_db w).2 = log w ++ new
            ∧ matching_entered (Input.name candidate_data) ∈ new) as Hgo.
  { intros H. destruct (Matching.top_matches m) as [|best rest] eqn:Hm.
    - rewrite full_workflow_no_matches by done. eexists _, _, _.
      split; [reflexivity|]. world_simpl. rewrite <- !app_assoc.
      split; [reflexivity|]. simpl. unfold matching_entered, info. set_solver.
    - rewrite (full_workflow_matches _ _ _ _ best rest) by done. eexists _, _, _.
      split; [reflexivity|]. world_simpl. rewrite <- !app_assoc.
      split; [reflexivity|]. simpl. unfold matching_entered, info. set_solver. }
  split; [|split].
  - split; [|exact Hhalt].
    intros H. destruct (decide (Screening.recommendation scr = REJECT)) as [|Hne]; [done|].
    destruct (Hgo Hne) as (? & ? & ? & Hc & _). congruence.
  - intros H. split; [by apply memory_rejected|].
    rewrite full_workflow_rejected by done. world_simpl. rewrite <- !app_assoc.
    eexists. split; [reflexivity|]. simpl.
    split; intros x Hin; unfold matching_entered, interview_entered, info in Hin;
      repeat (apply elem_of_cons in Hin as [Hin|Hin]; [discriminate Hin|]);
      by apply elem_of_nil in Hin.
  - intros H. destruct (Hgo H) as (interview & ts & new & Hc & Hl & Hin).
    exists m, (after_matching (profile_of candidate_data) jobs_db
                 (after_screening (Input.resume candidate_data) job_description
                    (w_log INFO ("Starting full workflow for: " +:+ Input.name candidate_data) w))),
      interview, ts, new.
    split; [|done]. rewrite match_jobs_run. reflexivity.
Qed.

(** * The interview stage *)

Lemma interview_of_shape (role_title : string) (candidate_skills : list string)
    (ts : string) :
  let p := interview_of role_title candidate_skills ts in
  Interview.role p = role_title
  ∧ Interview.total_questions p = 5
  ∧ length (Interview.questions p) = 5
  ∧ Question.category <$> Interview.questions p
    = [Technical; Technical; Behavioral; Behavioral; RoleSpecific]
  ∧ Question.question <$> Interview.questions p
    = [ "Describe your experience with "
          +:+ hd "software development" candidate_skills +:+ "?";
        "Walk us through a challenging project you've worked on.";
        "How do you handle conflicts in a team environment?";
        "Tell us about a time you failed and what you learned.";
        "Why are you interested in this " +:+ role_title +:+ " position?" ].
Proof. destruct candidate_skills; repeat split. Qed.

(** C6. A workflow run that is not halted at screening completes with the
    combined dict.  When the matching result has a top match, the interview
    output is a plan, recorded in memory, for the role of the first top match:
    five questions, each with a category, the first about the candidate's
    first listed skill (or "software development" when the candidate lists
    none) and the last about that role.  When there is no match, the interview
    output is the sentinel [{status: NO_MATCHES}], and the run completes all
    the same. *)
Theorem interview_stage_outcome (candidate_data : Input.candidate_data)
    (job_description : string) (jobs_db : list Job.record) (w : world)
    (screening : Screening.result) :
  (screen_candidate (Input.resume candidate_data) job_description
     (w_log INFO ("Starting full workflow for: " +:+ Input.name candidate_data) w)).1
  = Ok screening →
  Screening.recommendation screening ≠ REJECT →
  ∃ (matching : Matching.result) (interview : interview_outcome) (ts : string) (w' : world),
    full_workflow candidate_data job_description jobs_db w
    = (Ok (Combined (Input.name candidate_data) "COMPLETED"
             screening matching interview ts), w')
    ∧ match Matching.top_matches matching with
      | best_match :: _ =>
          ∃ p, interview = Plan p
               ∧ session_state w' !! "interview_questions" = Some (VInterview (Plan p))
               ∧ Interview.role p = Match.title best_match
               ∧ Interview.total_questions p = 5
               ∧ length (Interview.questions p) = 5
               ∧ Question.category <$> Interview.questions p
                 = [Technical; Technical; Behavioral; Behavioral; RoleSpecific]
               ∧ Question.question <$> Interview.questions p
                 = [ "Describe your experience with "
                       +:+ hd "software development"
                             (default [] (Input.skills candidate_data)) +:+ "?";
                     "Walk us through a challenging project you've worked on.";
                     "How do you handle conflicts in a team environment?";
                     "Tell us about a time you failed and what you learned.";
                     "Why are you interested in this " +:+ Match.title best_match
                       +:+ " position?" ]
      | [] => interview = Sentinel "NO_MATCHES"
      end.
Proof.
  rewrite screen_candidate_run. cbn [fst]. world_simpl. intros [= <-] Hrec.
  set (m := matching_of (profile_of candidate_data) jobs_db (clock w 1)).
  exists m. destruct (Matching.top_matches m) as [|best rest] eqn:Hm.
  - eexists _, _, _. split; [by apply full_workflow_no_matches|]. reflexivity.
  - eexists _, _, _. split; [by apply (full_workflow_matches _ _ _ _ best rest)|].
    eexists. split; [reflexivity|].
    split; [world_simpl; apply lookup_insert_eq|].
    apply interview_of_shape.
Qed.

Lemma interview_stage_outcome_witness :
  ∃ matching p ts w',
    full_workflow sample_candidate sample_job_description sample_jobs (fresh tick)
    = (Ok (Combined "Alice Johnson" "COMPLETED"
             (screening_of (Input.resume sample_candidate) sample_job_description
                "2025-01-01T00:00:00")
             matching (Plan p) ts), w')
    ∧ Interview.role p = "Senior ML Engineer"
    ∧ length (Interview.questions p) = 5.
Proof.
  destruct (interview_stage_outcome sample_candidate sample_job_description sample_jobs
              (fresh tick)
              (screening_of (Input.resume sample_candidate) sample_job_description
                 "2025-01-01T00:00:00"))
    as (matching & interview & ts & w' & Hrun & Hitv).
  - reflexivity.
  - vm_compute. discriminate.
  - assert (matching = matching_of (profile_of sample_candidate) sample_jobs
                         "2025-01-01T00:00:00") as ->.
    { pose proof (f_equal fst Hrun) as H. vm_compute in H. vm_compute. congruence. }
    vm_compute in Hitv. destruct Hitv as (p & -> & _ & Hrole & _ & Hlen & _).
    exists (matching_of (profile_of sample_candidate) sample_jobs "2025-01-01T00:00:00"),
      p, ts, w'.
    split; [exact Hrun|]. split; [exact Hrole|exact Hlen].
Defined.

(** * The sample data of [main] *)

(** C9. For the sample resume and job description of [main], screening
    extracts Python, Machine Learning, Cloud, SQL, API and Docker from the
    resume and Python, Machine Learning, Cloud, SQL and API from the job
    description; the match score is 100 and the recommendation is PASS. *)
Theorem sample_screening (w : world) :
  ∃ (r : Screening.result) (w' : world),
    screen_candidate (Input.resume sample_candidate) sample_job_description w = (Ok r, w')
    ∧ Screening.resume_skills r
      = ["Python"; "Machine Learning"; "Cloud"; "SQL"; "API"; "Docker"]
    ∧ Screening.required_skills r
      = ["Python"; "Machine Learning"; "Cloud"; "SQL"; "API"]
    ∧ (Screening.match_score r == 100)%Q
    ∧ Screening.recommendation r = PASS.
Proof.
  eexists _, _. split; [apply screen_candidate_run|].
  unfold screening_of. cbn [Screening.resume_skills Screening.required_skills
    Screening.match_score Screening.recommendation].
  split; [by vm_compute|]. split; [by vm_compute|]. split; by vm_compute.
Qed.

(** The resume side of the sample is not the five-skill set: it holds Docker. *)
Lemma sample_resume_lists_docker :
  ∃ (r : Screening.result) (w' : world),
    screen_candidate (Input.resume sample_candidate) sample_job_description (fresh tick)
    = (Ok r, w')
    ∧ "Docker" ∈ skill_set (Screening.resume_skills r)
    ∧ skill_set (Screening.resume_skills r)
      ≠ {[ "Python"; "Machine Learning"; "Cloud"; "SQL"; "API" ]}.
Proof.
  eexists _, _. split; [apply screen_candidate_run|].
  assert ("Docker" ∈ skill_set (Screening.resume_skills
            (screening_of (Input.resume sample_candidate) sample_job_description
               (clock (fresh tick) 0)))) as Hin.
  { apply elem_of_list_to_set. vm_compute. set_solver. }
  split; [exact Hin|]. intros E. rewrite E in Hin. revert Hin.
  apply (bool_decide_unpack _). by vm_compute.
Qed.

(** * Session memory *)

Lemma screen_candidate_writes (resume_text job_description : string) :
  stage_writes (screen_candidate resume_text job_description) "screening_result" VScreening.
Proof. intros w. eexists _, _. split; [apply screen_candidate_run|reflexivity]. Qed.

Lemma match_jobs_writes (c : CandidateProfile) (jobs : list Job.record) :
  stage_writes (match_jobs c jobs) "matching_result" VMatching.
Proof. intros w. eexists _, _. split; [apply match_jobs_run|reflexivity]. Qed.

Lemma generate_interview_writes (role_title : string) (candidate_skills : list string) :
  stage_writes (generate_interview role_title candidate_skills) "interview_questions"
    (λ p, VInterview (Plan p)).
Proof. intros w. eexists _, _. split; [apply generate_interview_run|reflexivity]. Qed.

Lemma stage_writes_overwrites {A : Type} (first second : M A) (key : string)
    (inj : A → value) :
  stage_writes first key inj → stage_writes second key inj →
  overwrites first second key inj.
Proof.
  intros H1 H2 w.
  destruct (H1 w) as (r1 & w1 & E1 & S1). destruct (H2 w1) as (r2 & w2 & E2 & S2).
  exists r1, w1, r2, w2. split; [done|]. split; [done|]. split.
  - rewrite S1. apply lookup_insert_eq.
  - rewrite S2, S1. apply insert_insert_eq.
Qed.

Lemma stores_invariant (s s' : gmap string value) :
  stores s s' →
  dom s ⊆ stage_keys → dom s' ⊆ stage_keys.
Proof.
  induction 1 as [s|s s' r Hst IH|s s' r Hst IH|s s' p Hst IH]; intros Hd; [done|..];
    rewrite dom_insert; apply union_subseteq; (split; [|by apply IH]);
    apply singleton_subseteq_l; unfold stage_keys;
    rewrite !elem_of_union, !elem_of_singleton; auto.
Qed.

Lemma stores_keyed (s s' : gmap string value) (P : string → value → Prop) :
  stores s s' →
  (∀ r, P "screening_result" (VScreening r)) →
  (∀ r, P "matching_result" (VMatching r)) →
  (∀ p, P "interview_questions" (VInterview (Plan p))) →
  (∀ k v, s !! k = Some v → P k v) → ∀ k v, s' !! k = Some v → P k v.
Proof.
  intros Hst Hs Hm Hi. induction Hst as [s|s s' r _ IH|s s' r _ IH|s s' p _ IH];
    intros H0 k v Hl; [by apply H0|..];
    (apply lookup_insert_Some in Hl as [[<- <-]|[_ Hl]]; [done|by apply IH]).
Qed.

Lemma full_workflow_stores (cd : Input.candidate_data) (jd : string)
    (jobs : list Job.record) (w : world) :
  stores (session_state w) (session_state (full_workflow cd jd jobs w).2).
Proof.
  set (scr := screening_of (Input.resume cd) jd (clock w 0)).
  set (m := matching_of (profile_of cd) jobs (clock w 1)).
  destruct (decide (Screening.recommendation scr = REJECT)) as [Hr|Hr].
  - rewrite memory_rejected by done. repeat constructor.
  - destruct (Matching.top_matches m) as [|best rest] eqn:Hm.
    + rewrite memory_no_matches by done. repeat constructor.
    + rewrite (memory_matches _ _ _ _ best rest) by done. repeat constructor.
Qed.

Lemma reachable_stores (w : world) : reachable w → stores ∅ (session_state w).
Proof.
  assert (∀ s s' s'', stores s s' → stores s' s'' → stores s s'') as Htrans.
  { intros s s' s'' H1 H2. induction H2; [done|constructor; auto..]. }
  induction 1 as [model l c|r j w _ IH|c jobs w _ IH|t sk w _ IH|cd jd jobs w _ IH].
  - constructor.
  - rewrite screen_candidate_run. by constructor.
  - rewrite match_jobs_run. by constructor.
  - rewrite generate_interview_run. by constructor.
  - eapply Htrans; [exact IH|apply full_workflow_stores].
Qed.

Ltac lookup_memory :=
  world_simpl;
  repeat first [ apply lookup_insert_eq
               | rewrite lookup_insert_ne by discriminate ];
  try reflexivity.

Lemma full_workflow_outputs (cd : Input.candidate_data) (jd : string)
    (jobs : list Job.record) (w : world) :
  ∃ r w', full_workflow cd jd jobs w = (Ok r, w')
          ∧ plans_recorded r w w'
          ∧ ran_in_order cd jd jobs w r
          ∧ log w' = log w ++ workflow_trace (Input.name cd) r.
Proof.
  set (scr := screening_of (Input.resume cd) jd (clock w 0)).
  set (m := matching_of (profile_of cd) jobs (clock w 1)).
  destruct (decide (Screening.recommendation scr = REJECT)) as [Hr|Hr];
    [|destruct (Matching.top_matches m) as [|best rest] eqn:Hm].
  - eexists _, _. split; [by apply full_workflow_rejected|].
    split; [lookup_memory|]. split.
    + eexists. rewrite screen_candidate_run. reflexivity.
    + world_simpl. by rewrite <- !app_assoc.
  - eexists _, _. split; [by apply full_workflow_no_matches|].
    split; [repeat split; lookup_memory|]. split.
    + eexists _, _. split; [rewrite screen_candidate_run; reflexivity|]. split; [lookup_memory|].
      split; [rewrite match_jobs_run; reflexivity|]. split; [lookup_memory|]. split; [lookup_memory|].
      exact Hm.
    + world_simpl. by rewrite <- !app_assoc.
  - eexists _, _. split; [by apply (full_workflow_matches _ _ _ _ best rest)|].
    split; [repeat split; lookup_memory|]. split.
    + eexists _, _. split; [rewrite screen_candidate_run; reflexivity|]. split; [lookup_memory|].
      split; [rewrite match_jobs_run; reflexivity|]. split; [lookup_memory|]. split; [lookup_memory|].
      exists best, rest. eexists. split; [exact Hm|]. rewrite generate_interview_run. reflexivity.
    + world_simpl. by rewrite <- !app_assoc.
Qed.

(** C7. Each stage, in any world, returns its result and leaves the memory it
    found with that result stored under the stage's key.  A workflow run
    returns stage outputs that are the results of the stages called in order,
    each stored before the next stage is entered, and the outputs of the
    stages that ran are the objects held in memory afterwards (when no match
    exists the interview stage does not run: the sentinel is no stage result,
    and the [interview_questions] key is left as it was).  The memory of an
    agent never holds a key other than the three stage keys, each with the
    result of its own stage, and a second call of a stage replaces what the
    first stored. *)
Theorem session_memory_discipline :
  (∀ resume_text job_description,
     stage_writes (screen_candidate resume_text job_description)
       "screening_result" VScreening)
  ∧ (∀ candidate job_database,
       stage_writes (match_jobs candidate job_database) "matching_result" VMatching)
  ∧ (∀ role_title candidate_skills,
       stage_writes (generate_interview role_title candidate_skills)
         "interview_questions" (λ p, VInterview (Plan p)))
  ∧ (∀ candidate_data job_description jobs_db w,
       ∃ r w', full_workflow candidate_data job_description jobs_db w = (Ok r, w')
               ∧ plans_recorded r w w'
               ∧ ran_in_order candidate_data job_description jobs_db w r
               ∧ log w' = log w ++ workflow_trace (Input.name candidate_data) r)
  ∧ (∀ w, reachable w → dom (session_state w) ⊆ stage_keys ∧ well_keyed w)
  ∧ (∀ resume1 job1 resume2 job2,
       overwrites (screen_candidate resume1 job1) (screen_candidate resume2 job2)
         "screening_result" VScreening)
  ∧ (∀ candidate1 jobs1 candidate2 jobs2,
       overwrites (match_jobs candidate1 jobs1) (match_jobs candidate2 jobs2)
         "matching_result" VMatching)
  ∧ (∀ role1 skills1 role2 skills2,
       overwrites (generate_interview role1 skills1) (generate_interview role2 skills2)
         "interview_questions" (λ p, VInterview (Plan p))).
Proof.
  split; [exact screen_candidate_writes|]. split; [exact match_jobs_writes|].
  split; [exact generate_interview_writes|]. split; [exact full_workflow_outputs|].
  split; [|split; [|split]].
  - intros w Hw. apply reachable_stores in Hw. split.
    + apply (stores_invariant _ _ Hw). set_solver.
    + unfold well_keyed.
      apply (stores_keyed _ _
               (λ k v, (k = "screening_result" ∧ ∃ r, v = VScreening r)
                       ∨ (k = "matching_result" ∧ ∃ r, v = VMatching r)
                       ∨ (k = "interview_questions" ∧ ∃ p, v = VInterview (Plan p)))
               Hw); [naive_solver..|].
      intros k v Hl. by rewrite lookup_empty in Hl.
  - intros. apply stage_writes_overwrites; apply screen_candidate_writes.
  - intros. apply stage_writes_overwrites; apply match_jobs_writes.
  - intros. apply stage_writes_overwrites; apply generate_interview_writes.
Qed.

(** A run of the sample candidate against an empty catalogue: the interview
    stage is not entered, the interview output is the sentinel, and the memory
    has no [interview_questions] entry. *)
Example sentinel_not_stored :
  ∃ r w',
    full_workflow sample_candidate sample_job_description [] (fresh tick) = (Ok r, w')
    ∧ (∃ name status scr m ts, r = Combined name status scr m (Sentinel "NO_MATCHES") ts)
    ∧ session_state w' !! "interview_questions" = None
    ∧ dom (session_state w') = {[ "screening_result"; "matching_result" ]}.
Proof.
  eexists _, _. split.
  - apply full_workflow_no_matches; [by vm_compute|reflexivity].
  - split; [by eexists _, _, _, _, _|]. world_simpl.
    unfold fresh, __init__. cbn [session_state]. split.
    + rewrite !lookup_insert_ne by discriminate. apply lookup_empty.
    + rewrite !dom_insert_L, dom_empty_L. by rewrite (right_id_L ∅ (∪)), (comm_L (∪)).
Qed.

(** * Further properties of the extractor and of screening *)

Lemma filter_sublist_impl {A : Type} (P Q : A → Prop)
    `{∀ x, Decision (P x)} `{∀ x, Decision (Q x)} (l : list A) :
  (∀ x, P x → Q x) → filter P l `sublist_of` filter Q l.
Proof.
  intros HPQ. induction l as [|x l IH]; [done|].
  rewrite !filter_cons. destruct (decide (P x)) as [HP|HP].
  - rewrite decide_True by auto. by apply sublist_skip.
  - destruct (decide (Q x)); [by apply sublist_cons|done].
Qed.

Lemma keywords_NoDup : NoDup keywords.
Proof. apply (bool_decide_unpack _). by vm_compute. Qed.

Lemma extract_skills_NoDup (text : string) : NoDup (_extract_skills text).
Proof. rewrite extract_skills_filter. apply NoDup_filter, keywords_NoDup. Qed.

(** X1. Whatever the text, the extracted skills are vocabulary keywords, each
    at most once, in the order of the vocabulary: a duplicate-free sublist of
    the eight keywords.  This holds for both extractors. *)
Theorem extract_shape (text : string) :
  _extract_skills text `sublist_of` keywords
  ∧ NoDup (_extract_skills text)
  ∧ length (_extract_skills text) ≤ 8
  ∧ _extract_job_requirements text `sublist_of` keywords
  ∧ NoDup (_extract_job_requirements text)
  ∧ length (_extract_job_requirements text) ≤ 8.
Proof.
  change (_extract_job_requirements text) with (_extract_skills text).
  assert (_extract_skills text `sublist_of` keywords) as Hsub
    by (rewrite extract_skills_filter; apply sublist_filter).
  pose proof (sublist_length _ _ Hsub) as Hlen. change (length keywords) with 8 in Hlen.
  pose proof (extract_skills_NoDup text). done.
Qed.

Lemma string_app_assoc (a b c : string) : (a +:+ b) +:+ c = a +:+ b +:+ c.
Proof.
  induction a as [|x a IH]; [done|].
  change (String x ((a +:+ b) +:+ c) = String x (a +:+ b +:+ c)). by rewrite IH.
Qed.

Lemma contains_embedded (n pre h post : string) :
  Str.contains n h = true → Str.contains n (pre +:+ h +:+ post) = true.
Proof.
  rewrite !StrFacts.contains_spec. intros (a & b & ->).
  exists (pre +:+ a), (b +:+ post).
  by rewrite !string_app_assoc.
Qed.

Lemma extract_skills_embedded (pre text post : string) :
  _extract_skills text `sublist_of` _extract_skills (pre +:+ text +:+ post).
Proof.
  rewrite !extract_skills_filter. apply filter_sublist_impl. intros k Hk.
  rewrite !StrFacts.lower_app. by apply contains_embedded.
Qed.

(** X2. Text around a text never removes a skill: the skills extracted from
    a text are a sublist of those extracted from any text that contains it,
    for both extractors.  (More may be found: a keyword can straddle the
    seam.) *)
Theorem extract_monotone (pre text post : string) :
  _extract_skills text `sublist_of` _extract_skills (pre +:+ text +:+ post)
  ∧ _extract_job_requirements text
    `sublist_of` _extract_job_requirements (pre +:+ text +:+ post)
  ∧ _extract_skills "Py" = [] ∧ _extract_skills "thon" = []
  ∧ _extract_skills ("Py" +:+ "thon") = ["Python"].
Proof.
  unfold _extract_job_requirements. fold (_extract_skills text).
  fold (_extract_skills (pre +:+ text +:+ post)).
  split; [apply extract_skills_embedded|]. split; [apply extract_skills_embedded|].
  by vm_compute.
Qed.

(** ** When the match score is 100 and when it is 0 *)

Lemma size_skill_set_NoDup (l : list string) :
  size (skill_set l) = length l → NoDup l.
Proof.
  unfold skill_set. induction l as [|x l IH]; [constructor|].
  rewrite list_to_set_cons. intros Hsz. simpl in Hsz.
  pose proof (size_skill_set_le l) as Hle. unfold skill_set in Hle.
  destruct (decide (x ∈ l)) as [Hin|Hnin].
  - assert ({[x]} ∪ list_to_set l = (list_to_set l : gset string)) as E.
    { apply set_eq. intros y. rewrite elem_of_union, elem_of_singleton, elem_of_list_to_set.
      split; [intros [->|?]; done|auto]. }
    rewrite E in Hsz. lia.
  - rewrite size_union, size_singleton in Hsz.
    + constructor; [done|]. apply IH. lia.
    + intros y Hy1 Hy2. apply elem_of_singleton in Hy1 as ->.
      by apply elem_of_list_to_set in Hy2.
Qed.

Lemma overlap_full (S R : list string) :
  overlap S R = length R ↔ NoDup R ∧ ∀ x, x ∈ R → x ∈ S.
Proof.
  unfold overlap. split.
  - intros Ho.
    pose proof (size_skill_set_le R) as Hle.
    assert (size (skill_set S ∩ skill_set R) ≤ size (skill_set R)) as Hsub
      by (apply subseteq_size, intersection_subseteq_r).
    assert (size (skill_set R) = length R) as Hsz by lia.
    split; [by apply size_skill_set_NoDup|].
    intros x Hx.
    assert (skill_set S ∩ skill_set R = skill_set R) as E.
    { apply set_subseteq_size_eq; [apply intersection_subseteq_r|lia]. }
    assert (x ∈ skill_set S ∩ skill_set R) as Hin
      by (rewrite E; by apply elem_of_list_to_set).
    apply elem_of_intersection in Hin as [Hin _]. by apply elem_of_list_to_set in Hin.
  - intros [Hnd Hall].
    assert (skill_set S ∩ skill_set R = skill_set R) as ->.
    { apply set_eq. intros x. rewrite elem_of_intersection. unfold skill_set.
      rewrite !elem_of_list_to_set. split; [tauto|auto]. }
    by apply size_list_to_set.
Qed.

Lemma overlap_zero (S R : list string) :
  overlap S R = 0 ↔ ∀ x, x ∈ R → x ∉ S.
Proof.
  unfold overlap. rewrite size_empty_iff. unfold skill_set. split.
  - intros E x HR HS. apply (not_elem_of_empty (C:=gset string) x). rewrite <- E.
    apply elem_of_intersection. by rewrite !elem_of_list_to_set.
  - intros H x. rewrite elem_of_intersection, !elem_of_list_to_set.
    split; [intros [HS HR]; by destruct (H x HR)|intros Hx; by apply not_elem_of_empty in Hx].
Qed.

Section ScoreValues.
Local Open Scope Q_scope.

Lemma Qnat_inj (n m : nat) : Qnat n == Qnat m ↔ n = m.
Proof. unfold Qnat. rewrite inject_Z_injective. lia. Qed.

Lemma percent_full (a b : Q) : 0 < b → (a / b * 100 == 100 ↔ a == b).
Proof.
  intros Hb. split; intros H.
  - assert (a / b == 1) as H1 by (generalize dependent (a / b); intros; lra).
    rewrite <- (Qmult_div_r a b) by lra. rewrite H1. lra.
  - rewrite H. unfold Qdiv. rewrite Qmult_inv_r by lra. lra.
Qed.

Lemma percent_zero (a b : Q) : 0 < b → (a / b * 100 == 0 ↔ a == 0).
Proof.
  intros Hb. split; intros H.
  - assert (a / b == 0) as H1 by (generalize dependent (a / b); intros; lra).
    rewrite <- (Qmult_div_r a b) by lra. rewrite H1. lra.
  - rewrite H. unfold Qdiv. rewrite Qmult_0_l. lra.
Qed.

Lemma match_score_100 (S R : list string) :
  R ≠ [] → (_calculate_match_score S R == 100 ↔ overlap S R = length R).
Proof.
  intros HR. destruct R as [|r R]; [done|]. unfold _calculate_match_score.
  rewrite percent_full by (apply Qnat_pos; simpl; lia). apply Qnat_inj.
Qed.

Lemma match_score_0 (S R : list string) :
  _calculate_match_score S R == 0 ↔ R = [] ∨ overlap S R = 0%nat.
Proof.
  destruct R as [|r R].
  - simpl. split; [by left|reflexivity].
  - unfold _calculate_match_score.
    rewrite percent_zero by (apply Qnat_pos; simpl; lia).
    change 0 with (Qnat 0). rewrite Qnat_inj. split; [by right|by intros [?|?]].
Qed.
End ScoreValues.

(** X3. For a non-empty list of required skills the match score is 100
    exactly when the list has no duplicate and every required skill is among
    the candidate's, and it is 0 exactly when no required skill is among the
    candidate's.  A required list with a repeated skill can never score 100. *)
Theorem match_score_extremes (S R : list string) :
  R ≠ [] →
  ((_calculate_match_score S R == 100)%Q ↔ NoDup R ∧ ∀ x, x ∈ R → x ∈ S)
  ∧ ((_calculate_match_score S R == 0)%Q ↔ ∀ x, x ∈ R → x ∉ S).
Proof.
  intros HR. split.
  - by rewrite match_score_100, overlap_full.
  - rewrite match_score_0, <- overlap_zero. split; [by intros [?|?]|by right].
Qed.

Lemma match_score_extremes_witness :
  (_calculate_match_score ["SQL"; "Python"] ["Python"; "SQL"] == 100)%Q
  ∧ ¬ (_calculate_match_score ["Python"] ["Python"; "Python"] == 100)%Q.
Proof.
  split.
  - apply (proj1 (match_score_extremes ["SQL"; "Python"] ["Python"; "SQL"] ltac:(discriminate))).
    split; [apply (bool_decide_unpack _); by vm_compute|].
    intros x Hx. apply (bool_decide_unpack _).
    repeat (apply elem_of_cons in Hx as [->|Hx]; [by vm_compute|]).
    by apply elem_of_nil in Hx.
  - intros H.
    apply (proj1 (match_score_extremes ["Python"] ["Python"; "Python"] ltac:(discriminate)))
      in H as [Hnd _].
    revert Hnd. apply (bool_decide_unpack _). by vm_compute.
Defined.

(** ** Screening outcomes that follow from the texts *)

Lemma recommend_100 : recommend 100%Q = PASS.
Proof. reflexivity. Qed.

Lemma recommend_0 : recommend 0%Q = REJECT.
Proof. reflexivity. Qed.

(** X4. A resume that contains the job description scores 100 and passes
    screening, provided the job description mentions a vocabulary keyword. *)
Theorem resume_containing_job_passes (pre job_description post : string) (w : world) :
  _extract_job_requirements job_description ≠ [] →
  ∃ r w',
    screen_candidate (pre +:+ job_description +:+ post) job_description w = (Ok r, w')
    ∧ (Screening.match_score r == 100)%Q
    ∧ Screening.recommendation r = PASS.
Proof.
  intros Hne.
  exists (screening_of (pre +:+ job_description +:+ post) job_description (clock w 0)),
    (after_screening (pre +:+ job_description +:+ post) job_description w).
  split; [apply screen_candidate_run|].
  assert (_calculate_match_score (_extract_skills (pre +:+ job_description +:+ post))
            (_extract_job_requirements job_description) == 100)%Q as H100.
  { apply match_score_100; [done|]. apply overlap_full. split.
    - apply extract_skills_NoDup.
    - intros x Hx. eapply sublist_subseteq; [apply extract_skills_embedded|exact Hx]. }
  split; [exact H100|].
  unfold screening_of. cbn [Screening.recommendation].
  rewrite (recommend_Qeq _ _ H100). apply recommend_100.
Qed.

Lemma resume_containing_job_passes_witness :
  ∃ r w',
    screen_candidate ("I know " +:+ "SQL and Java" +:+ " well.") "SQL and Java" (fresh tick)
    = (Ok r, w')
    ∧ Screening.recommendation r = PASS.
Proof.
  destruct (resume_containing_job_passes "I know " "SQL and Java" " well." (fresh tick))
    as (r & w' & Hrun & _ & Hrec).
  - by vm_compute.
  - by exists r, w'.
Defined.

(** X5. When no skill required by the job description is found in the resume
    (in particular when the job description or the resume mentions no
    vocabulary keyword at all), the score is 0 and the workflow halts with the
    REJECTED dict, whatever the catalogue and whatever skills and experience
    the candidate input declares; the memory gains the screening result only. *)
Theorem no_common_skill_rejected (candidate_data : Input.candidate_data)
    (job_description : string) (jobs_db : list Job.record) (w : world) :
  (∀ k, k ∈ _extract_job_requirements job_description →
        k ∉ _extract_skills (Input.resume candidate_data)) →
  ∃ scr w',
    full_workflow candidate_data job_description jobs_db w
    = (Ok (Halted "REJECTED" "screening" scr), w')
    ∧ (Screening.match_score scr == 0)%Q
    ∧ session_state w' = <["screening_result" := VScreening scr]> (session_state w).
Proof.
  intros Hdis.
  set (scr := screening_of (Input.resume candidate_data) job_description (clock w 0)).
  assert (Screening.match_score scr == 0)%Q as H0.
  { apply match_score_0. right. by apply overlap_zero. }
  assert (Screening.recommendation scr = REJECT) as Hrej.
  { transitivity (recommend 0%Q); [|apply recommend_0].
    apply recommend_Qeq. exact H0. }
  eexists scr, _. split; [by apply full_workflow_rejected|]. split; [exact H0|].
  reflexivity.
Qed.

Lemma no_common_skill_rejected_witness :
  ∃ scr w',
    full_workflow sample_candidate "We need a plumber." sample_jobs (fresh tick)
    = (Ok (Halted "REJECTED" "screening" scr), w').
Proof.
  destruct (no_common_skill_rejected sample_candidate "We need a plumber." sample_jobs
              (fresh tick)) as (scr & w' & Hrun & _).
  - intros k Hk. vm_compute in Hk. by apply elem_of_nil in Hk.
  - by exists scr, w'.
Defined.

(** X6. The recommendation never gets worse when the score grows: for scores
    [s <= t] the recommendation for [t] ranks at least as high as the one for
    [s] (REJECT below REVIEW below PASS), and equal scores, however written as
    fractions, get the same recommendation. *)
Theorem recommend_monotone (s t : Q) :
  (s <= t)%Q →
  rank (recommend s) ≤ rank (recommend t)
  ∧ ((s == t)%Q → recommend s = recommend t).
Proof.
  intros Hle. split; [|apply recommend_Qeq].
  unfold recommend.
  destruct (Qle_bool 70 s) eqn:H70, (Qle_bool 70 t) eqn:H70',
           (Qle_bool 50 s) eqn:H50, (Qle_bool 50 t) eqn:H50'; simpl; try lia;
    repeat match goal with
           | H : Qle_bool _ _ = true |- _ => apply Qle_bool_iff in H
           | H : Qle_bool _ _ = false |- _ =>
               apply not_true_iff_false in H; rewrite Qle_bool_iff in H
           end; exfalso; lra.
Qed.

Lemma recommend_monotone_witness :
  rank (recommend (100 # 3)) ≤ rank (recommend (200 # 3)).
Proof.
  apply (recommend_monotone (100 # 3) (200 # 3)). by vm_compute.
Defined.

(** * Further properties of the job-fit score *)

Section FitFacts.
Local Open Scope Q_scope.

Lemma ratio_eq_1 (a b : Q) : 0 < b → (a / b == 1 ↔ a == b).
Proof.
  intros Hb. split; intros H.
  - rewrite <- (Qmult_div_r a b) by lra. rewrite H. lra.
  - rewrite H. unfold Qdiv. rewrite Qmult_inv_r by lra. lra.
Qed.

Lemma div_le_compat (x y d : Q) : 0 < d → x <= y → x / d <= y / d.
Proof.
  intros Hd Hxy. apply Qle_shift_div_l; [done|].
  unfold Qdiv. rewrite <- Qmult_assoc, (Qmult_comm (/ d)), Qmult_inv_r by lra. lra.
Qed.

Lemma div_ge_1 (x d : Q) : 0 < d → (1 <= x / d ↔ d <= x).
Proof.
  intros Hd. split; intros H.
  - rewrite <- (Qmult_div_r x d) by lra.
    assert (0 <= (x / d - 1) * d) by (apply Qmult_le_0_compat; lra). lra.
  - apply Qle_shift_div_l; lra.
Qed.

Lemma years_floor_pos (j : Job.record) :
  0 < Qmax 1 (default 1 (Job.years_experience_required j)).
Proof.
  pose proof (Q.le_max_l 1 (default 1 (Job.years_experience_required j))). lra.
Qed.

Lemma skill_ratio_same_skills (c1 c2 : CandidateProfile) (j : Job.record) :
  skills c1 = skills c2 → skill_ratio c1 j = skill_ratio c2 j.
Proof. intros E. unfold skill_ratio. by rewrite E. Qed.

Lemma experience_ratio_monotone (c1 c2 : CandidateProfile) (j : Job.record) :
  experience_years c1 <= experience_years c2 →
  experience_ratio c1 j <= experience_ratio c2 j.
Proof.
  intros H. unfold experience_ratio. apply Q.min_le_compat_l.
  apply div_le_compat; [apply years_floor_pos|done].
Qed.

Lemma experience_ratio_full (c : CandidateProfile) (j : Job.record) :
  experience_ratio c j == 1
  ↔ py_max 1 (default 1 (Job.years_experience_required j)) <= experience_years c.
Proof.
  rewrite py_max_Qmax. rewrite <- (div_ge_1 _ _ (years_floor_pos j)).
  unfold experience_ratio.
  set (q := experience_years c / Qmax 1 (default 1 (Job.years_experience_required j))).
  split; intros H.
  - destruct (Qlt_le_dec q 1) as [Hlt|Hge]; [|done].
    rewrite Q.min_r in H by lra. lra.
  - by rewrite Q.min_l.
Qed.

(** X7. More experience never lowers the job-fit score, and experience beyond
    the required years (floored at one) adds nothing: two candidates with the
    same skills, the second at least as experienced, are scored in that
    order, and equally once the first reaches the requirement. *)
Theorem job_fit_experience (c1 c2 : CandidateProfile) (j : Job.record) :
  skills c1 = skills c2 →
  experience_years c1 <= experience_years c2 →
  _calculate_job_fit c1 j <= _calculate_job_fit c2 j
  ∧ (py_max 1 (default 1 (Job.years_experience_required j)) <= experience_years c1 →
     _calculate_job_fit c1 j == _calculate_job_fit c2 j).
Proof.
  intros Hsk Hexp. rewrite !job_fit_weighted, (skill_ratio_same_skills c1 c2 j Hsk).
  pose proof (experience_ratio_monotone c1 c2 j Hexp). split; [lra|].
  intros Hcap.
  assert (experience_ratio c1 j == 1) as -> by (by apply experience_ratio_full).
  assert (experience_ratio c2 j == 1) as -> by (apply experience_ratio_full; lra).
  reflexivity.
Qed.

Lemma job_fit_experience_witness :
  _calculate_job_fit example_candidate example_job
  == _calculate_job_fit
       {| name := "Bob"; email := "bob@example.com"; resume_text := "";
          skills := ["Python"; "SQL"; "Docker"]; experience_years := 40 |} example_job.
Proof.
  apply (job_fit_experience example_candidate
           {| name := "Bob"; email := "bob@example.com"; resume_text := "";
              skills := ["Python"; "SQL"; "Docker"]; experience_years := 40 |} example_job);
    [reflexivity|by vm_compute|by vm_compute].
Defined.

Lemma skill_ratio_full (c : CandidateProfile) (j : Job.record) :
  skill_ratio c j == 1
  ↔ ∃ rs, Job.required_skills j = Some rs ∧ rs ≠ []
          ∧ NoDup rs ∧ ∀ x, x ∈ rs → x ∈ skills c.
Proof.
  unfold skill_ratio. cbv zeta.
  change (size (skill_set (skills c) ∩ skill_set (default [] (Job.required_skills j))))
    with (overlap (skills c) (default [] (Job.required_skills j))).
  destruct (Job.required_skills j) as [[|r rs]|]; cbn [default].
  - rewrite overlap_nil_r. split; [intros H; vm_compute in H; discriminate|].
    intros (rs & [= <-] & Hne & _). done.
  - assert (Qmax 1 (Qnat (length (r :: rs))) == Qnat (length (r :: rs))) as ->.
    { apply Q.max_r. apply (Qnat_le 1). simpl. lia. }
    rewrite ratio_eq_1 by (apply Qnat_pos; simpl; lia).
    rewrite Qnat_inj, overlap_full. split.
    + intros [Hnd Hall]. by exists (r :: rs).
    + intros (rs' & [= <-] & _ & Hnd & Hall). done.
  - rewrite overlap_nil_r. split; [intros H; vm_compute in H; discriminate|].
    intros (rs & [=] & _).
Qed.

(** X8. A candidate who has every required skill of a job that lists at least
    one and none twice, and whose experience reaches the required years
    floored at one, gets a job-fit score of exactly 100. *)
Theorem job_fit_perfect (c : CandidateProfile) (j : Job.record) (rs : list string) :
  Job.required_skills j = Some rs →
  rs ≠ [] →
  NoDup rs →
  (∀ x, x ∈ rs → x ∈ skills c) →
  py_max 1 (default 1 (Job.years_experience_required j)) <= experience_years c →
  _calculate_job_fit c j == 100.
Proof.
  intros Hrs Hne Hnd Hall Hexp. rewrite job_fit_weighted.
  assert (skill_ratio c j == 1) as -> by (apply skill_ratio_full; by exists rs).
  assert (experience_ratio c j == 1) as -> by (by apply experience_ratio_full).
  reflexivity.
Qed.

Lemma job_fit_perfect_witness :
  _calculate_job_fit example_candidate data_engineer_job == 100.
Proof.
  apply (job_fit_perfect example_candidate data_engineer_job ["Python"; "SQL"; "Docker"]).
  - reflexivity.
  - discriminate.
  - apply (bool_decide_unpack _). by vm_compute.
  - intros x Hx. exact Hx.
  - by vm_compute.
Defined.

(** A score above the cutoff needs more than a sixth of the required skills. *)
Lemma passing_overlap (c : CandidateProfile) (j : Job.record) :
  50 < _calculate_job_fit c j →
  (0 < overlap (skills c) (default [] (Job.required_skills j)))%nat.
Proof.
  intros H. rewrite job_fit_weighted in H.
  pose proof (experience_ratio_le_1 c j) as He.
  destruct (overlap (skills c) (default [] (Job.required_skills j))) as [|n] eqn:E; [|lia].
  exfalso. unfold skill_ratio in H. cbv zeta in H.
  change (size (skill_set (skills c) ∩ skill_set (default [] (Job.required_skills j))))
    with (overlap (skills c) (default [] (Job.required_skills j))) in H.
  rewrite E in H.
  assert (Qnat 0 / Qmax 1 (Qnat (length (default [] (Job.required_skills j)))) == 0) as E0
    by apply Qmult_0_l.
  rewrite E0 in H. lra.
Qed.
End FitFacts.

Lemma overlap_nil_l (b : list string) : overlap [] b = 0.
Proof. apply overlap_zero. intros x _ Hx. by apply elem_of_nil in Hx. Qed.

Lemma overlap_pos_common (a b : list string) :
  0 < overlap a b → ∃ x, x ∈ a ∧ x ∈ b.
Proof.
  intros H. destruct (decide (overlap a b = 0)) as [E|Hne]; [lia|].
  unfold overlap in Hne. rewrite size_empty_iff in Hne.
  apply set_choose in Hne as [x Hx].
  apply elem_of_intersection in Hx as [Ha Hb].
  apply elem_of_list_to_set in Ha. apply elem_of_list_to_set in Hb. by exists x.
Qed.

(** X9. Every entry of the top matches shares a skill with the candidate: its
    key matches are not empty, and each of them is a skill of the candidate
    that the job requires.  Experience alone, worth at most 40, never makes a
    match. *)
Theorem top_matches_share_skills (candidate : CandidateProfile)
    (job_database : list Job.record) (w : world) :
  ∃ r w',
    match_jobs candidate job_database w = (Ok r, w')
    ∧ Forall (λ e, (∃ x, x ∈ Match.key_matches e)
                   ∧ ∀ x, x ∈ Match.key_matches e → x ∈ skills candidate)
        (Matching.top_matches r).
Proof.
  eexists _, _. split; [apply match_jobs_run|].
  rewrite top_matches_ranking. apply Forall_fmap.
  eapply Forall_impl; [apply ranking_elements|].
  intros [k j] [_ Hgt]. simpl in *. unfold _find_skill_matches. split.
  - apply passing_overlap, overlap_pos_common in Hgt as (x & Ha & Hb).
    exists x. apply elem_of_intersection. unfold skill_set.
    by rewrite !elem_of_list_to_set.
  - intros x Hx. apply elem_of_intersection in Hx as [Hx _].
    by apply elem_of_list_to_set in Hx.
Qed.

(** * Further properties of job matching *)

Lemma passing_no_skills (c : CandidateProfile) (jobs : list Job.record) :
  skills c = [] → passing c jobs = [].
Proof.
  intros E. unfold passing. induction jobs as [|j jobs IH]; [done|].
  rewrite filter_cons, decide_False; [done|].
  intros Hgt. apply passing_overlap in Hgt. rewrite E, overlap_nil_l in Hgt. lia.
Qed.

Lemma matching_of_no_skills (c : CandidateProfile) (jobs : list Job.record) (ts : string) :
  skills c = [] →
  Matching.total_matches_found (matching_of c jobs ts) = 0
  ∧ Matching.top_matches (matching_of c jobs ts) = [].
Proof. intros E. unfold matching_of. by rewrite passing_no_skills. Qed.

(** X10. A candidate input that declares no skills (the key absent or the list
    empty) never gets a match, however experienced: a workflow run is either
    halted at screening or completes with zero matches found, no top match and
    the NO_MATCHES sentinel as interview output.  The skills found in the
    resume by screening are not used for matching. *)
Theorem skill_less_candidate_gets_no_plan (candidate_data : Input.candidate_data)
    (job_description : string) (jobs_db : list Job.record) (w : world) :
  default [] (Input.skills candidate_data) = [] →
  ∃ r w',
    full_workflow candidate_data job_description jobs_db w = (Ok r, w')
    ∧ match r with
      | Halted _ _ _ => True
      | Combined _ _ _ m itv _ =>
          Matching.total_matches_found m = 0
          ∧ Matching.top_matches m = []
          ∧ itv = Sentinel "NO_MATCHES"
      end.
Proof.
  intros Hsk.
  set (scr := screening_of (Input.resume candidate_data) job_description (clock w 0)).
  destruct (matching_of_no_skills (profile_of candidate_data) jobs_db (clock w 1) Hsk)
    as [Htot Htop].
  destruct (decide (Screening.recommendation scr = REJECT)) as [Hr|Hr].
  - eexists _, _. split; [by apply full_workflow_rejected|done].
  - eexists _, _. split; [by apply full_workflow_no_matches|done].
Qed.

Lemma skill_less_candidate_gets_no_plan_witness :
  ∃ r w',
    full_workflow veteran_without_skills sample_job_description sample_jobs (fresh tick)
    = (Ok r, w')
    ∧ match r with
      | Halted _ _ _ => True
      | Combined _ _ _ m itv _ =>
          Matching.total_matches_found m = 0
          ∧ Matching.top_matches m = []
          ∧ itv = Sentinel "NO_MATCHES"
      end.
Proof.
  apply (skill_less_candidate_gets_no_plan veteran_without_skills
           sample_job_description sample_jobs (fresh tick)).
  reflexivity.
Defined.

(** X11. Whenever a workflow run returns an interview plan, the candidate
    input declares at least one skill and the first question of the plan asks
    about the first declared skill: through the workflow, the fallback phrase
    of [generate_interview] is never used. *)
Theorem plan_asks_about_first_skill (candidate_data : Input.candidate_data)
    (job_description : string) (jobs_db : list Job.record) (w : world)
    (name status : string) (scr : Screening.result) (m : Matching.result)
    (p : Interview.result) (ts : string) :
  (full_workflow candidate_data job_description jobs_db w).1
  = Ok (Combined name status scr m (Plan p) ts) →
  ∃ s rest,
    Input.skills candidate_data = Some (s :: rest)
    ∧ Question.question <$> head (Interview.questions p)
      = Some ("Describe your experience with " +:+ s +:+ "?").
Proof.
  set (scr0 := screening_of (Input.resume candidate_data) job_description (clock w 0)).
  set (m0 := matching_of (profile_of candidate_data) jobs_db (clock w 1)).
  destruct (decide (Screening.recommendation scr0 = REJECT)) as [Hr|Hr].
  { rewrite full_workflow_rejected by done. discriminate. }
  destruct (Matching.top_matches m0) as [|best rest] eqn:Hm.
  { rewrite full_workflow_no_matches by done. discriminate. }
  rewrite (full_workflow_matches _ _ _ _ best rest) by done.
  cbn [fst]. intros [= _ _ _ _ <- _].
  destruct (Input.skills candidate_data) as [[|s sk]|] eqn:Hsk.
  - destruct (matching_of_no_skills (profile_of candidate_data) jobs_db (clock w 1))
      as [_ Htop]; [unfold profile_of; cbn [skills]; by rewrite Hsk|].
    fold m0 in Htop. congruence.
  - exists s, sk. split; [done|]. unfold profile_of, interview_of.
    cbn [skills Interview.questions head fmap option_fmap option_map].
    rewrite ?Hsk. reflexivity.
  - destruct (matching_of_no_skills (profile_of candidate_data) jobs_db (clock w 1))
      as [_ Htop]; [unfold profile_of; cbn [skills]; by rewrite Hsk|].
    fold m0 in Htop. congruence.
Qed.

Lemma plan_asks_about_first_skill_witness :
  ∃ s rest, Input.skills sample_candidate = Some (s :: rest).
Proof.
  assert (Matching.top_matches
            (matching_of (profile_of sample_candidate) sample_jobs (clock (fresh tick) 1))
          = entry_of (profile_of sample_candidate) (default bare_job (head sample_jobs))
            :: map (entry_of (profile_of sample_candidate)) (tail sample_jobs)) as Hm
    by (by vm_compute).
  pose proof (full_workflow_matches sample_candidate sample_job_description sample_jobs
                (fresh tick) _ _ ltac:(by vm_compute) Hm) as Hrun.
  apply (f_equal fst) in Hrun. cbn [fst] in Hrun.
  destruct (plan_asks_about_first_skill _ _ _ _ _ _ _ _ _ _ Hrun) as (s & rest & Hs & _).
  by exists s, rest.
Defined.

Lemma StronglySorted_trivial {A : Type} (l : list A) :
  StronglySorted (λ _ _, True) l.
Proof. induction l; constructor; [done|]. by apply Forall_forall. Qed.

Lemma StronglySorted_app_elem {A : Type} (R : A → A → Prop) (l1 l2 : list A) (x1 x2 : A) :
  StronglySorted R (l1 ++ l2) → x1 ∈ l1 → x2 ∈ l2 → R x1 x2.
Proof.
  induction l1 as [|y l1 IH]; intros Hs H1 H2; [by apply elem_of_nil in H1|].
  simpl in Hs. apply StronglySorted_inv in Hs as [Hs Hy].
  apply elem_of_cons in H1 as [->|H1]; [|by apply IH].
  rewrite Forall_forall in Hy. apply Hy. apply elem_of_app. by right.
Qed.

(** The whole sorted list of matches is in non-increasing order of score. *)
Lemma sort_desc_descending {A : Type} (key : A → Q) (l : list A) :
  StronglySorted (λ x y, (key y <= key x)%Q) (sort_desc key l).
Proof.
  pose proof (sort_desc_sorted key (λ _ _, True) l (StronglySorted_trivial l)) as H.
  induction H as [|x l' Hs IH Hx]; constructor; [done|].
  eapply Forall_impl; [exact Hx|]. intros y [Hlt|[Heq _]]; lra.
Qed.

(** X12. Job matching counts every catalogue job scoring above 50 (so at most
    the size of the catalogue), keeps three of them or all when fewer, and
    keeps the best: a job above the cutoff that is not among the top matches
    scores no more than any of them. *)
Theorem top_matches_are_best (candidate : CandidateProfile)
    (job_database : list Job.record) (w : world) :
  ∃ r w',
    match_jobs candidate job_database w = (Ok r, w')
    ∧ Matching.total_matches_found r = length (passing candidate job_database)
    ∧ Matching.total_matches_found r ≤ length job_database
    ∧ length (Matching.top_matches r) = min 3 (Matching.total_matches_found r)
    ∧ ∀ job, job ∈ job_database → (50 < _calculate_job_fit candidate job)%Q →
        entry_of candidate job ∈ Matching.top_matches r
        ∨ Forall (λ e, (_calculate_job_fit candidate job <= Match.match_score e)%Q)
            (Matching.top_matches r).
Proof.
  eexists _, _. split; [apply match_jobs_run|].
  unfold matching_of. cbn [Matching.total_matches_found Matching.top_matches].
  set (sorted := sort_desc Match.match_score
                   (map (entry_of candidate) (passing candidate job_database))).
  assert (length sorted = length (passing candidate job_database)) as Hlen.
  { unfold sorted. by rewrite sort_desc_perm, length_map. }
  split; [done|]. split; [rewrite Hlen; apply length_filter|].
  split; [apply length_take|].
  intros job Hin Hgt.
  assert (entry_of candidate job ∈ sorted) as He.
  { unfold sorted. rewrite sort_desc_perm. apply list_elem_of_fmap_2.
    unfold passing. by apply list_elem_of_filter. }
  rewrite <- (take_drop 3 sorted) in He. apply elem_of_app in He as [He|He]; [by left|].
  right. apply Forall_forall. intros e Hin'.
  pose proof (sort_desc_descending Match.match_score
                (map (entry_of candidate) (passing candidate job_database))) as Hs.
  fold sorted in Hs. rewrite <- (take_drop 3 sorted) in Hs.
  apply (StronglySorted_app_elem _ _ _ _ _ Hs Hin' He).
Qed.

(** * What the stages read *)

Lemma job_fit_ext (c c' : CandidateProfile) (j : Job.record) :
  skills c = skills c' → experience_years c = experience_years c' →
  _calculate_job_fit c j = _calculate_job_fit c' j.
Proof. intros Hs He. unfold _calculate_job_fit. by rewrite Hs, He. Qed.

Lemma matching_of_ext (c c' : CandidateProfile) (jobs : list Job.record) (ts : string) :
  name c = name c' → skills c = skills c' → experience_years c = experience_years c' →
  matching_of c jobs ts = matching_of c' jobs ts.
Proof.
  intros Hn Hs He.
  assert (∀ j, entry_of c j = entry_of c' j) as Hent.
  { intros j. unfold entry_of. by rewrite (job_fit_ext c c' j Hs He), Hs. }
  assert (passing c jobs = passing c' jobs) as Hpass.
  { unfold passing. induction jobs as [|j jobs IH]; [done|].
    rewrite !filter_cons, IH, (job_fit_ext c c' j Hs He). done. }
  unfold matching_of. rewrite Hn, Hpass.
  by rewrite (list_fmap_ext (entry_of c) (entry_of c') _ (λ _ x _, Hent x)).
Qed.

(** X13. Job matching reads the name, the skills and the years of experience
    of the profile and nothing else: two profiles that agree on these, whatever
    their resume texts and e-mail addresses, get the same result and leave the
    same memory and log. *)
Theorem match_jobs_reads (c c' : CandidateProfile) (job_database : list Job.record)
    (w : world) :
  name c = name c' → skills c = skills c' → experience_years c = experience_years c' →
  match_jobs c job_database w = match_jobs c' job_database w.
Proof.
  intros Hn Hs He. rewrite !match_jobs_run. unfold after_matching.
  by rewrite (matching_of_ext c c' job_database _ Hn Hs He), Hn.
Qed.

Lemma match_jobs_reads_witness :
  match_jobs example_candidate sample_jobs (fresh tick)
  = match_jobs
      {| name := "Bob"; email := "robert@example.org";
         resume_text := "No keyword in here.";
         skills := ["Python"; "SQL"; "Docker"]; experience_years := 5%Q |}
      sample_jobs (fresh tick).
Proof.
  apply (match_jobs_reads example_candidate
           {| name := "Bob"; email := "robert@example.org";
              resume_text := "No keyword in here.";
              skills := ["Python"; "SQL"; "Docker"]; experience_years := 5%Q |});
    reflexivity.
Defined.

(** X14. The value under the [email] key of the candidate input has no
    effect.  The workflow looks the key up when it builds the profile of a
    candidate who passed screening, so the key has to be there, but nothing
    uses the address afterwards: two inputs that differ only in that value
    give the same returned dict and leave the same memory, log and clock. *)
Theorem email_value_has_no_effect (e : string) (candidate_data : Input.candidate_data)
    (job_description : string) (jobs_db : list Job.record) (w : world) :
  full_workflow (with_email e candidate_data) job_description jobs_db w
  = full_workflow candidate_data job_description jobs_db w.
Proof.
  set (scr := screening_of (Input.resume candidate_data) job_description (clock w 0)).
  assert (matching_of (profile_of (with_email e candidate_data)) jobs_db (clock w 1)
          = matching_of (profile_of candidate_data) jobs_db (clock w 1)) as Hm
    by (by apply matching_of_ext).
  destruct (decide (Screening.recommendation scr = REJECT)) as [Hr|Hr].
  - rewrite !full_workflow_rejected by done. reflexivity.
  - destruct (Matching.top_matches
                (matching_of (profile_of candidate_data) jobs_db (clock w 1)))
      as [|best rest] eqn:Htop.
    + rewrite (full_workflow_no_matches candidate_data) by done.
      rewrite (full_workflow_no_matches (with_email e candidate_data))
        by (by rewrite ?Hm).
      unfold after_matching. rewrite Hm. reflexivity.
    + rewrite (full_workflow_matches candidate_data _ _ _ best rest) by done.
      rewrite (full_workflow_matches (with_email e candidate_data) _ _ _ best rest)
        by (by rewrite ?Hm).
      unfold after_matching. rewrite Hm. reflexivity.
Qed.

(** * Clock readings and the memory of a new agent *)

(** X15. Each stage that runs reads the clock once, when it builds its result,
    and a completed run reads it once more for the combined dict: the
    timestamps of a run are consecutive readings in the order screening,
    matching, interview, workflow, and the run consumes 1 reading when it is
    halted, 3 when there is no match and 4 when a plan is made. *)
Theorem workflow_timestamps (candidate_data : Input.candidate_data)
    (job_description : string) (jobs_db : list Job.record) (w : world) :
  ∃ r w',
    full_workflow candidate_data job_description jobs_db w = (Ok r, w')
    ∧ match r with
      | Halted _ _ scr =>
          Screening.timestamp scr = clock w 0
          ∧ ∀ n, clock w' n = clock w (1 + n)
      | Combined _ _ scr m itv ts =>
          Screening.timestamp scr = clock w 0
          ∧ Matching.timestamp m = clock w 1
          ∧ match itv with
            | Plan p =>
                Interview.timestamp p = clock w 2 ∧ ts = clock w 3
                ∧ ∀ n, clock w' n = clock w (4 + n)
            | Sentinel _ =>
                ts = clock w 2 ∧ ∀ n, clock w' n = clock w (3 + n)
            end
      end.
Proof.
  set (scr := screening_of (Input.resume candidate_data) job_description (clock w 0)).
  set (m := matching_of (profile_of candidate_data) jobs_db (clock w 1)).
  destruct (decide (Screening.recommendation scr = REJECT)) as [Hr|Hr];
    [|destruct (Matching.top_matches m) as [|best rest] eqn:Hm].
  - eexists _, _. split; [by apply full_workflow_rejected|]. by split.
  - eexists _, _. split; [by apply full_workflow_no_matches|]. by repeat split.
  - eexists _, _. split; [by apply (full_workflow_matches _ _ _ _ best rest)|].
    by repeat split.
Qed.

(** X16. After one workflow run on a new agent the keys of the session memory
    tell how far the run went: only [screening_result] when it was halted,
    [screening_result] and [matching_result] when no match was found, and all
    three stage keys when a plan was made. *)
Theorem new_agent_memory (model : string) (l : list log_record) (c : nat → string)
    (candidate_data : Input.candidate_data) (job_description : string)
    (jobs_db : list Job.record) :
  ∃ r w',
    full_workflow candidate_data job_description jobs_db (__init__ model l c) = (Ok r, w')
    ∧ dom (session_state w')
      = match r with
        | Halted _ _ _ => {[ "screening_result" ]}
        | Combined _ _ _ _ (Sentinel _) _ => {[ "screening_result"; "matching_result" ]}
        | Combined _ _ _ _ (Plan _) _ => stage_keys
        end.
Proof.
  set (w := __init__ model l c).
  set (scr := screening_of (Input.resume candidate_data) job_description (clock w 0)).
  set (m := matching_of (profile_of candidate_data) jobs_db (clock w 1)).
  destruct (decide (Screening.recommendation scr = REJECT)) as [Hr|Hr];
    [|destruct (Matching.top_matches m) as [|best rest] eqn:Hm].
  - eexists _, _. split; [by apply full_workflow_rejected|].
    world_simpl. subst w. unfold __init__. cbn [session_state].
    rewrite dom_insert_L, dom_empty_L. by rewrite (right_id_L ∅ (∪)).
  - eexists _, _. split; [by apply full_workflow_no_matches|].
    world_simpl. subst w. unfold __init__. cbn [session_state].
    rewrite !dom_insert_L, dom_empty_L.
    by rewrite (right_id_L ∅ (∪)), (comm_L (∪)).
  - eexists _, _. split; [by apply (full_workflow_matches _ _ _ _ best rest)|].
    world_simpl. subst w. unfold __init__. cbn [session_state].
    rewrite !dom_insert_L, dom_empty_L. unfold stage_keys.
    rewrite (right_id_L ∅ (∪)).
    rewrite (comm_L (∪) {["interview_questions"]}), (comm_L (∪) {["matching_result"]}).
    reflexivity.
Qed.
